(** * aerosandbox.modeling.fitting: a shallow embedding of [fit_model]

    The development follows [src/aerosandbox/modeling/fitting.py].  The
    function [fit_model] is embedded step by step, in the order of the source,
    as a computation in a small state-and-exception monad whose state records
    the optimization environment ([Opti]) and the calls made to the user model
    and to the solver.

    Conventions.
    - NumPy float arrays are lists of exact rationals ([Q]); rounding, NaN and
      infinities are not modelled.  Equality of numbers is [Qeq] ([==]).
    - Symbolic (CasADi) expressions are terms of [sexpr]; a vector expression
      is a list of scalar terms.
    - Python dictionaries are insertion-ordered association lists ([dict]).
    - The solver behind [Opti.solve] and [sol.value] is a parameter. *)

From Stdlib Require Import List String Ascii Bool Arith Lia ZArith QArith Qminmax Qabs Lqa.
Import ListNotations.

Local Open Scope string_scope.
Local Open Scope list_scope.
Local Open Scope Q_scope.

(** ** Python dictionaries *)

Definition dict (V : Type) : Type := list (string * V).

Definition keys {V} (d : dict V) : list string := map fst d.

Definition values {V} (d : dict V) : list V := map snd d.

(** [d[k]] *)
Fixpoint dict_get {V} (k : string) (d : dict V) : option V :=
  match d with
  | [] => None
  | (k', v) :: d' => if String.eqb k k' then Some v else dict_get k d'
  end.

(** [k in d] *)
Definition dict_mem {V} (k : string) (d : dict V) : bool :=
  match dict_get k d with Some _ => true | None => false end.

(** [d[k] = v]: an existing key keeps its position, a new key goes last. *)
Fixpoint dict_set {V} (k : string) (v : V) (d : dict V) : dict V :=
  match d with
  | [] => [(k, v)]
  | (k', v') :: d' =>
      if String.eqb k k' then (k', v) :: d' else (k', v') :: dict_set k v d'
  end.

(** [d.update(other)] for a mapping [other]. *)
Definition dict_update {V} (d other : dict V) : dict V :=
  fold_left (fun acc kv => dict_set (fst kv) (snd kv) acc) other d.

(** ** Symbolic expressions and constraints *)

Inductive sexpr : Type :=
| Num (q : Q)
| Var (i : nat)
| Neg (a : sexpr)
| Add (a b : sexpr)
| Sub (a b : sexpr)
| Mul (a b : sexpr)
| Pow2 (a : sexpr)
| Log (a : sexpr)
| Fmax (a b : sexpr).

Inductive constr : Type :=
| Ge (a b : sexpr)
| Le (a b : sexpr).

(** Modelled from the spec: [sum1] and [length] of
    [aerosandbox.optimization.math], which is not part of the sources at hand.
    The spec uses them as "the sum of the entries" (weights are divided by
    their sum) and "the number of entries" of a series. *)
Definition sum1 (v : list Q) : Q := fold_right Qplus 0 v.

Definition sum1_sym (v : list sexpr) : sexpr := fold_right Add (Num 0) v.

Definition length {A} (v : list A) : nat := List.length v.

Section Semantics.

(** The natural logarithm is not a rational function: it is a parameter of
    the semantics. *)
Variable ln : Q -> Q.

(** Value of each decision variable. *)
Variable rho : nat -> Q.

Fixpoint eval (e : sexpr) : Q :=
  match e with
  | Num q => q
  | Var i => rho i
  | Neg a => - eval a
  | Add a b => eval a + eval b
  | Sub a b => eval a - eval b
  | Mul a b => eval a * eval b
  | Pow2 a => eval a * eval a
  | Log a => ln (eval a)
  | Fmax a b => Qmax (eval a) (eval b)
  end.

Definition holds (c : constr) : bool :=
  match c with
  | Ge a b => Qle_bool (eval b) (eval a)
  | Le a b => Qle_bool (eval a) (eval b)
  end.

End Semantics.

(** ** Exceptions raised by [fit_model] *)

Inductive exn : Type :=
| ValueError_bounds_key (param_name : string)
| ValueError_bounds_format
| ValueError_logspace
| ValueError_series (key : string) (series_length n_datapoints : nat)
| TypeError_model_None
| TypeError_operand
| ValueError_broadcast
| ValueError_residual_type
| ValueError_fit_type
| IndexError
| SolveFailure.

(** The errors of the spec's "validation error" class: all the [ValueError]s
    that [fit_model] raises itself. *)
Definition is_validation_error (e : exn) : bool :=
  match e with
  | ValueError_bounds_key _ | ValueError_bounds_format | ValueError_logspace
  | ValueError_series _ _ _ | ValueError_residual_type | ValueError_fit_type => true
  | _ => false
  end.

Definition is_type_error (e : exn) : bool :=
  match e with
  | TypeError_model_None | TypeError_operand => true
  | _ => false
  end.

(** ** The optimization environment *)

(** One call of [opti.variable]. *)
Record var_decl : Type := mk_var_decl {
  init_guess : Q;
  n_vars : nat;
  lower_bound : option Q;
  upper_bound : option Q;
  first_index : nat
}.

(** Modelled from the spec: the class [Opti] of
    [aerosandbox.optimization.opti], which is not part of the sources at hand.
    The spec's collaborator interface: declare a scalar decision variable with
    an initial guess and optional bounds, or a vector of n of them; register
    inequality constraints; set one scalar objective to minimize; solve.
    The bounds of a variable stay with its declaration; [constraints] holds
    what came in through [subject_to], in order. *)
Record Opti : Type := mk_Opti {
  variables : list var_decl;
  next_index : nat;
  constraints : list constr;
  objective : option sexpr
}.

Definition Opti_new : Opti := mk_Opti [] 0 [] None.

(** What a call of [fit_model] has done so far. *)
Record world : Type := mk_world {
  opti : option Opti;
  model_evals : nat;
  solve_calls : nat
}.

Definition world0 : world := mk_world None 0 0.

(** ** The monad of [fit_model]: state [world], exceptions [exn] *)

Definition M (A : Type) : Type := world -> world * (exn + A).

Definition ret {A} (a : A) : M A := fun w => (w, inr a).

Definition raise {A} (e : exn) : M A := fun w => (w, inl e).

Definition bind {A B} (m : M A) (k : A -> M B) : M B :=
  fun w =>
    match m w with
    | (w', inl e) => (w', inl e)
    | (w', inr a) => k a w'
    end.

Definition lift {A} (r : exn + A) : M A := fun w => (w, r).

Declare Scope fit_scope.
Delimit Scope fit_scope with fit.
Notation "x <- m ;; k" := (bind m (fun x => k))
  (at level 61, m at next level, right associativity) : fit_scope.
Notation "m ;;; k" := (bind m (fun _ => k))
  (at level 61, right associativity) : fit_scope.
Local Open Scope fit_scope.

(** Pure checks raise through [exn + unit]. *)
Definition ok : exn + unit := inr tt.

Definition and_then (r : exn + unit) (k : exn + unit) : exn + unit :=
  match r with inl e => inl e | inr _ => k end.

(** The current optimization environment; the source always has one by then. *)
Definition with_opti {A} (f : Opti -> Opti * A) : M A :=
  fun w =>
    let o := match opti w with Some o => o | None => Opti_new end in
    let '(o', a) := f o in
    (mk_world (Some o') (model_evals w) (solve_calls w), inr a).

(** [opti = Opti()] *)
Definition Opti_create : M unit :=
  fun w => (mk_world (Some Opti_new) (model_evals w) (solve_calls w), inr tt).

(** [opti.variable(init_guess, n_vars, lower_bound, upper_bound)]: the new
    decision variables, as a vector of [n_vars] symbols. *)
Definition Opti_variable (init : Q) (n : nat) (lb ub : option Q) : M (list sexpr) :=
  with_opti (fun o =>
    (mk_Opti (variables o ++ [mk_var_decl init n lb ub (next_index o)])
             (next_index o + n) (constraints o) (objective o),
     map Var (seq (next_index o) n))).

(** [opti.subject_to(cs)] *)
Definition Opti_subject_to (cs : list constr) : M unit :=
  with_opti (fun o =>
    (mk_Opti (variables o) (next_index o) (constraints o ++ cs) (objective o), tt)).

(** [opti.minimize(f)] *)
Definition Opti_minimize (f : sexpr) : M unit :=
  with_opti (fun o =>
    (mk_Opti (variables o) (next_index o) (constraints o) (Some f), tt)).

(** A scalar decision variable: [opti.variable(init_guess=..)] with [n_vars]
    left at its default 1; the result is the one new symbol. *)
Definition Opti_variable_scalar (init : Q) (lb ub : option Q) : M sexpr :=
  with_opti (fun o =>
    (mk_Opti (variables o ++ [mk_var_decl init 1 lb ub (next_index o)])
             (next_index o + 1) (constraints o) (objective o),
     Var (next_index o))).

(** ** Inputs and results of [fit_model] *)

(** [x_data] after flattening: a bare sequence, or a mapping from input names
    to sequences (the [try: x_data.items() / except AttributeError] of the
    source decides which). *)
Inductive x_input : Type :=
| XSeq (v : list Q)
| XNamed (d : dict (list Q)).

(** What a call [model(x_data, params)] can hand back: nothing ([None]), a
    vector of symbolic entries, or a value without arithmetic (a [str], a
    [dict], a plain object). *)
Inductive model_result : Type :=
| RNone
| RArray (v : list sexpr)
| RNonNumeric.

Definition Model : Type := x_input -> dict sexpr -> model_result.

(** A solved parameter: a number, or [np.NaN]. *)
Inductive pyfloat : Type :=
| Finite (q : Q)
| NaN.

Record FittedModel : Type := mk_FittedModel {
  model : Model;
  parameters : dict pyfloat;
  x_data : x_input;
  y_data : list Q
}.

(** [FittedModel.__call__] *)
Definition FittedModel_call (fm : FittedModel) (x : x_input) (p : dict sexpr)
  : model_result :=
  model fm x p.

(** ** NumPy helpers *)

Definition ones (n : nat) : list Q := repeat 1 n.

(** [v /= s] on a float array. *)
Definition divide (v : list Q) (s : Q) : list Q := map (fun x => x / s) v.

Fixpoint zip_with {A B C} (f : A -> B -> C) (a : list A) (b : list B) : list C :=
  match a, b with
  | x :: a', y :: b' => f x y :: zip_with f a' b'
  | _, _ => []
  end.

(** Elementwise binary operation on two one-dimensional arrays, with NumPy's
    broadcasting: equal lengths pair up, a length-one operand is repeated, and
    anything else cannot be broadcast. *)
Definition broadcast {A B C} (f : A -> B -> C) (a : list A) (b : list B)
  : exn + list C :=
  if Nat.eqb (length a) (length b) then inr (zip_with f a b)
  else match a, b with
       | [x], _ => inr (map (fun y => f x y) b)
       | _, [y] => inr (map (fun x => f x y) a)
       | _, _ => inl ValueError_broadcast
       end.

(** [s.lower()] on ASCII strings. *)
Definition lower_ascii (c : ascii) : ascii :=
  let n := nat_of_ascii c in
  if andb (Nat.leb 65 n) (Nat.leb n 90) then ascii_of_nat (n + 32) else c.

Fixpoint lower (s : string) : string :=
  match s with
  | EmptyString => EmptyString
  | String c s' => String (lower_ascii c) (lower s')
  end.

(** The floor [1e-300] of the source. *)
Definition eps : Q := 1 # (10 ^ 300).

(** ** The steps of [fit_model], in source order *)

(** [if parameter_bounds is None: parameter_bounds = {}] (lines 264-265). *)
Definition bounds_or_empty (parameter_bounds : option (dict (list (option Q))))
  : dict (list (option Q)) :=
  match parameter_bounds with
  | None => []
  | Some b => b
  end.

(** "Handle weighting" (lines 256-261). *)
Definition handle_weighting (n_datapoints : nat) (weights : option (list Q))
  : list Q :=
  let weights :=
    match weights with
    | None => ones n_datapoints
    | Some w => w
    end in
  divide weights (sum1 weights).

(** "Check format of parameter_bounds input" (lines 266-273). *)
Fixpoint check_parameter_bounds (parameter_bounds : dict (list (option Q)))
  (parameter_guesses : dict Q) : exn + unit :=
  match parameter_bounds with
  | [] => ok
  | (param_name, v) :: rest =>
      if negb (dict_mem param_name parameter_guesses)
      then inl (ValueError_bounds_key param_name)
      else if negb (Nat.eqb (length v) 2)
      then inl ValueError_bounds_format
      else check_parameter_bounds rest parameter_guesses
  end.

(** [np.all(y_data > 0)] *)
Definition all_positive (y_data : list Q) : bool :=
  forallb (fun y => negb (Qle_bool y 0)) y_data.

(** "If putting residuals in logspace, check positivity" (lines 276-278). *)
Definition check_logspace (put_residuals_in_logspace : bool) (y_data : list Q)
  : exn + unit :=
  if put_residuals_in_logspace
  then if negb (all_positive y_data) then inl ValueError_logspace else ok
  else ok.

(** [relevant_inputs] (lines 281-288).  [dict.update] takes a mapping, or an
    iterable of key/value pairs: on a bare sequence with at least one entry
    it raises the [TypeError] that the source catches, and on an empty one it
    succeeds and adds nothing. *)
Definition relevant_inputs (x_data : x_input) (y_data weights : list Q)
  : dict (list Q) :=
  let relevant_inputs := [("y_data", y_data); ("weights", weights)] in
  match x_data with
  | XNamed d => dict_update relevant_inputs d
  | XSeq [] => relevant_inputs
  | XSeq v => dict_update relevant_inputs [("x_data", v)]
  end.

(** The loop over [relevant_inputs.items()] (lines 290-295). *)
Fixpoint check_lengths (items : dict (list Q)) (n_datapoints : nat)
  : exn + unit :=
  match items with
  | [] => ok
  | (key, value) :: rest =>
      let series_length := length value in
      if negb (Nat.eqb series_length n_datapoints)
      then inl (ValueError_series key series_length n_datapoints)
      else check_lengths rest n_datapoints
  end.

(** [parameter_bounds[param_name][i]] *)
Definition bound_item (parameter_bounds : dict (list (option Q)))
  (param_name : string) (i : nat) : exn + option Q :=
  match dict_get param_name parameter_bounds with
  | Some v => match nth_error v i with
              | Some b => inr b
              | None => inl IndexError
              end
  | None => inl IndexError
  end.

(** "Initialize the parameters as optimization variables" (lines 303-314). *)
Fixpoint declare_parameters (parameter_guesses : dict Q)
  (parameter_bounds : dict (list (option Q))) (params : dict sexpr)
  : M (dict sexpr) :=
  match parameter_guesses with
  | [] => ret params
  | (param_name, param_initial_guess) :: rest =>
      v <- (if dict_mem param_name parameter_bounds
            then lb <- lift (bound_item parameter_bounds param_name 0) ;;
                 ub <- lift (bound_item parameter_bounds param_name 1) ;;
                 Opti_variable_scalar param_initial_guess lb ub
            else Opti_variable_scalar param_initial_guess None None) ;;
      declare_parameters rest parameter_bounds (dict_set param_name v params)
  end.

(** "Evaluate the model at the data points" (lines 317-319). *)
Definition evaluate_model (model : Model) (x_data : x_input)
  (params : dict sexpr) : M model_result :=
  fun w =>
    let y_model := model x_data params in
    (mk_world (opti w) (S (model_evals w)) (solve_calls w),
     match y_model with
     | RNone => inl TypeError_model_None
     | _ => inr y_model
     end).

(** An arithmetic operation of Python on the model's result: a value without
    arithmetic raises [TypeError]. *)
Definition as_array (y_model : model_result) : exn + list sexpr :=
  match y_model with
  | RArray v => inr v
  | _ => inl TypeError_operand
  end.

(** "Compute how far off you are" (lines 322-326): the value of [y_model]
    after the step (the source reassigns it in logspace) and [error]. *)
Definition compute_error (put_residuals_in_logspace : bool)
  (y_model : model_result) (y_data : list Q)
  : exn + (list sexpr * list sexpr) :=
  match as_array y_model with
  | inl e => inl e
  | inr y_model =>
      if negb put_residuals_in_logspace
      then match broadcast Sub y_model (map Num y_data) with
           | inl e => inl e
           | inr error => inr (y_model, error)
           end
      else
        let y_model := map (fun p => Fmax p (Num eps)) y_model in
        match broadcast Sub (map Log y_model)
                (map (fun y => Log (Num y)) y_data) with
        | inl e => inl e
        | inr error => inr (y_model, error)
        end
  end.

(** "Set up the optimization problem to minimize some norm(error)"
    (lines 329-350). *)
Definition minimize_norm (residual_norm_type : string) (error : list sexpr)
  (y_data : list Q) : M unit :=
  if String.eqb (lower residual_norm_type) "l1" then
    abs_error <- Opti_variable 0 (length y_data) None None ;;
    c_pos <- lift (broadcast Ge abs_error error) ;;
    c_neg <- lift (broadcast Ge abs_error (map Neg error)) ;;
    Opti_subject_to (c_pos ++ c_neg) ;;;
    Opti_minimize (sum1_sym abs_error)
  else if String.eqb (lower residual_norm_type) "l2" then
    Opti_minimize (sum1_sym (map Pow2 error))
  else if String.eqb (lower residual_norm_type) "linf" then
    linf_value <- Opti_variable_scalar 0 None None ;;
    Opti_subject_to (map (fun e => Ge linf_value e) error
                     ++ map (fun e => Ge linf_value (Neg e)) error) ;;;
    Opti_minimize linf_value
  else raise ValueError_residual_type.

(** "Add in the constraints specified by fit_type" (lines 353-360). *)
Definition apply_fit_type (fit_type : string) (y_model : list sexpr)
  (y_data : list Q) : M unit :=
  if String.eqb fit_type "best" then ret tt
  else if String.eqb fit_type "upper bound" then
    c <- lift (broadcast Ge y_model (map Num y_data)) ;;
    Opti_subject_to c
  else if String.eqb fit_type "lower bound" then
    c <- lift (broadcast Le y_model (map Num y_data)) ;;
    Opti_subject_to c
  else raise ValueError_fit_type.

(** "Prepare all inputs, check types/sizes" (lines 238-295) and the
    formulation up to the objective (lines 300-350): the parameter symbols and
    the value of [y_model] that the later steps see. *)
Definition formulate (model : Model) (x_data : x_input) (y_data : list Q)
  (parameter_guesses : dict Q)
  (parameter_bounds : option (dict (list (option Q))))
  (residual_norm_type : string) (weights : option (list Q))
  (put_residuals_in_logspace : bool) : M (dict sexpr * list sexpr) :=
  let n_datapoints := length y_data in
  let weights := handle_weighting n_datapoints weights in
  let parameter_bounds := bounds_or_empty parameter_bounds in
  lift (check_parameter_bounds parameter_bounds parameter_guesses) ;;;
  lift (check_logspace put_residuals_in_logspace y_data) ;;;
  lift (check_lengths (relevant_inputs x_data y_data weights) n_datapoints) ;;;
  Opti_create ;;;
  params <- declare_parameters parameter_guesses parameter_bounds [] ;;
  y_model <- evaluate_model model x_data params ;;
  ye <- lift (compute_error put_residuals_in_logspace y_model y_data) ;;
  minimize_norm residual_norm_type (snd ye) y_data ;;;
  ret (params, fst ye).

(** Everything before "Solve" (lines 238-360). *)
Definition build_problem (model : Model) (x_data : x_input) (y_data : list Q)
  (parameter_guesses : dict Q)
  (parameter_bounds : option (dict (list (option Q))))
  (residual_norm_type fit_type : string) (weights : option (list Q))
  (put_residuals_in_logspace : bool) : M (dict sexpr) :=
  py <- formulate model x_data y_data parameter_guesses parameter_bounds
          residual_norm_type weights put_residuals_in_logspace ;;
  apply_fit_type fit_type (snd py) y_data ;;;
  ret (fst py).

Section Solver.

(** The solution handle of the optimization environment, the solve itself
    ([None]: the solver raised) and [sol.value] ([None]: it raised). *)
Variable solution : Type.
Variable solve : Opti -> option solution.
Variable sol_value : solution -> sexpr -> option Q.

(** [sol = opti.solve()] *)
Definition Opti_solve : M solution :=
  fun w =>
    let o := match opti w with Some o => o | None => Opti_new end in
    (mk_world (opti w) (model_evals w) (S (solve_calls w)),
     match solve o with
     | Some sol => inr sol
     | None => inl SolveFailure
     end).

(** The body of the [try]/[except] of lines 370-373; the bare [except] also
    catches a failing [params[param_name]]. *)
Definition solved_value (sol : solution) (params : dict sexpr)
  (param_name : string) : pyfloat :=
  match dict_get param_name params with
  | Some v => match sol_value sol v with
              | Some q => Finite q
              | None => NaN
              end
  | None => NaN
  end.

(** "Create a vector of solved parameters" (lines 368-373). *)
Fixpoint extract_parameters (sol : solution) (params : dict sexpr)
  (names : list string) (params_solved : dict pyfloat) : dict pyfloat :=
  match names with
  | [] => params_solved
  | param_name :: rest =>
      extract_parameters sol params rest
        (dict_set param_name (solved_value sol params param_name) params_solved)
  end.

Definition fit_model (model : Model) (x_data : x_input) (y_data : list Q)
  (parameter_guesses : dict Q)
  (parameter_bounds : option (dict (list (option Q))))
  (residual_norm_type fit_type : string) (weights : option (list Q))
  (put_residuals_in_logspace : bool) : M FittedModel :=
  params <- build_problem model x_data y_data parameter_guesses
              parameter_bounds residual_norm_type fit_type weights
              put_residuals_in_logspace ;;
  sol <- Opti_solve ;;
  let params_solved := extract_parameters sol params (keys params) [] in
  ret (mk_FittedModel model params_solved x_data y_data).

End Solver.

(** ** Reference statements from the specification *)

(** The spec's L2 objective: "sum over i of weight_i x residual_i^2". *)
Definition spec_weighted_L2_objective (weights : list Q) (error : list sexpr)
  : sexpr :=
  sum1_sym (zip_with (fun w e => Mul (Num w) (Pow2 e)) weights error).

(** ** A stand-in solver and a linear model, for concrete runs *)

(** The stand-in reports every variable at its initial guess, except that it
    cannot report the variables listed in [lost]. *)
Definition mock_solve (o : Opti) : option Opti := Some o.

Definition mock_value (lost : list nat) (o : Opti) (e : sexpr) : option Q :=
  match e with
  | Var i =>
      if existsb (Nat.eqb i) lost then None
      else option_map init_guess
             (find (fun d => andb (Nat.leb (first_index d) i)
                                  (Nat.ltb i (first_index d + n_vars d)))
                   (variables o))
  | _ => None
  end.

Definition param (p : dict sexpr) (name : string) : sexpr :=
  match dict_get name p with
  | Some v => v
  | None => Num 0
  end.

(** [p["m"] * x + p["b"]], the model of [test_fitted_model.py]. *)
Definition linear_model : Model :=
  fun x p =>
    match x with
    | XSeq v => RArray (map (fun xi => Add (Mul (param p "m") (Num xi)) (param p "b")) v)
    | XNamed _ => RNonNumeric
    end.

Definition none_model : Model := fun _ _ => RNone.

Definition text_model : Model := fun _ _ => RNonNumeric.

Definition guesses_mb : dict Q := [("m", 0); ("b", 0)].

(** ** Derived notions used in the statements *)

(** The parameter symbols that [declare_parameters] hands out, starting at
    variable index [i]. *)
Fixpoint param_symbols (parameter_guesses : dict Q) (i : nat)
  (params : dict sexpr) : dict sexpr :=
  match parameter_guesses with
  | [] => params
  | (param_name, _) :: rest =>
      param_symbols rest (S i) (dict_set param_name (Var i) params)
  end.

(** The three input checks of lines 263-295, in source order. *)
Definition validate (x_data : x_input) (y_data : list Q)
  (parameter_guesses : dict Q)
  (parameter_bounds : option (dict (list (option Q))))
  (weights : option (list Q)) (put_residuals_in_logspace : bool) : exn + unit :=
  let n_datapoints := length y_data in
  let weights := handle_weighting n_datapoints weights in
  let parameter_bounds := bounds_or_empty parameter_bounds in
  and_then (check_parameter_bounds parameter_bounds parameter_guesses)
    (and_then (check_logspace put_residuals_in_logspace y_data)
       (check_lengths (relevant_inputs x_data y_data weights) n_datapoints)).

(** The series a caller supplies: [y_data], the weights, and the series of
    [x_data] under their names (a bare sequence goes by "x_data"). *)
Definition supplied_series (x_data : x_input) (y_data : list Q)
  (weights : option (list Q)) : dict (list Q) :=
  ("y_data", y_data)
  :: ("weights", handle_weighting (length y_data) weights)
  :: match x_data with
     | XSeq v => [("x_data", v)]
     | XNamed d => d
     end.

(** The prediction that the constraints of [fit_type] are written on. *)
Definition floor_prediction (prediction : list sexpr) : list sexpr :=
  map (fun p => Fmax p (Num eps)) prediction.

(** What a run shows to the caller: the exception, or the solved parameters. *)
Definition outcome (r : world * (exn + FittedModel))
  : world * (exn + dict pyfloat) :=
  (fst r, match snd r with
          | inl e => inl e
          | inr fm => inr (parameters fm)
          end).

(** The state in which a formulation that got past the checks ends. *)
Definition formulated (pg : dict Q) (w : world) : Prop :=
  solve_calls w = 0%nat /\ model_evals w = 1%nat
  /\ exists o, opti w = Some o
       /\ (length pg <= length (variables o))%nat.

Definition nothing_assembled (pg : dict Q) (w : world) : Prop :=
  solve_calls w = 0%nat /\ model_evals w = 1%nat
  /\ exists o, opti w = Some o /\ length (variables o) = length pg
       /\ objective o = None /\ constraints o = [].

(** The errors raised by the input checks of lines 263-295. *)
Definition is_input_error (e : exn) : bool :=
  match e with
  | ValueError_bounds_key _ | ValueError_bounds_format | ValueError_logspace
  | ValueError_series _ _ _ => true
  | _ => false
  end.

(** The constraints that each [fit_type] stands for, on a prediction vector
    of the length of [y_data]. *)
Definition envelope_constraints (fit_type : string) (y_model : list sexpr)
  (y_data : list Q) : list constr :=
  if String.eqb fit_type "upper bound"
  then zip_with Ge y_model (map Num y_data)
  else if String.eqb fit_type "lower bound"
  then zip_with Le y_model (map Num y_data)
  else [].

(** The names under which [relevant_inputs] keeps the caller's series apart:
    a bare [x_data] has an entry, and a named [x_data] has no series called
    "y_data" or "weights". *)
Definition series_names_fresh (x : x_input) : Prop :=
  match x with
  | XSeq v => v <> []
  | XNamed d =>
      NoDup (keys d) /\ ~ In "y_data" (keys d) /\ ~ In "weights" (keys d)
  end.

(** ** [FittedModel] introspection *)

(** [FittedModel.input_names] (lines 75-79): the keys of a named [x_data],
    [None] for a bare sequence (the [AttributeError] branch). *)
Definition input_names (fm : FittedModel) : option (list string) :=
  match x_data fm with
  | XNamed d => Some (keys d)
  | XSeq _ => None
  end.

(** [FittedModel.input_dimensionality] (lines 68-73). *)
Definition input_dimensionality (fm : FittedModel) : nat :=
  match input_names fm with
  | Some names => length names
  | None => 1
  end.

(** ** Further notions used in the statements *)

(** The declaration that the loop of lines 304-314 asks for, for the
    parameter [name] with guess [g] at variable index [i]. *)
Definition parameter_decl (parameter_bounds : dict (list (option Q)))
  (i : nat) (name : string) (g : Q) : var_decl :=
  match dict_get name parameter_bounds with
  | Some v => mk_var_decl g 1 (nth 0 v None) (nth 1 v None) i
  | None => mk_var_decl g 1 None None i
  end.

Fixpoint parameter_decls (parameter_bounds : dict (list (option Q)))
  (i : nat) (parameter_guesses : dict Q) : list var_decl :=
  match parameter_guesses with
  | [] => []
  | (name, g) :: rest =>
      parameter_decl parameter_bounds i name g
      :: parameter_decls parameter_bounds (S i) rest
  end.

(** One symbol per parameter name, counted from [i]. *)
Fixpoint symbols_from (i : nat) (parameter_guesses : dict Q) : dict sexpr :=
  match parameter_guesses with
  | [] => []
  | (name, _) :: rest => (name, Var i) :: symbols_from (S i) rest
  end.

(** An entry of [parameter_bounds] that the check of lines 266-273 refuses. *)
Definition refused_bound (parameter_guesses : dict Q)
  (kv : string * list (option Q)) : bool :=
  orb (negb (dict_mem (fst kv) parameter_guesses))
      (negb (Nat.eqb (length (snd kv)) 2)).

Definition is_bounds_error (e : exn) : bool :=
  match e with
  | ValueError_bounds_key _ | ValueError_bounds_format => true
  | _ => false
  end.

(** The number of weights that reach the length check. *)
Definition weights_length (n_datapoints : nat) (weights : option (list Q))
  : nat :=
  match weights with
  | None => n_datapoints
  | Some w => length w
  end.

(** A named [x_data] is a dictionary: its names are distinct. *)
Definition distinct_names (x : x_input) : Prop :=
  match x with
  | XNamed d => NoDup (keys d)
  | XSeq _ => True
  end.

(** All constraints of a list hold under an assignment. *)
Definition satisfies (ln : Q -> Q) (rho : nat -> Q) (cs : list constr) : bool :=
  forallb (holds ln rho) cs.

(** The names of the three norms and of the three fit types, as the source
    compares them. *)
Definition norm_names : list string := ["l1"; "l2"; "linf"].

Definition fit_type_names : list string :=
  ["best"; "upper bound"; "lower bound"].

(** A linear model over the named input "t", for concrete runs. *)
Definition named_linear_model : Model :=
  fun x p =>
    match x with
    | XNamed d =>
        match dict_get "t" d with
        | Some v =>
            RArray (map (fun xi => Add (Mul (param p "m") (Num xi))
                                       (param p "b")) v)
        | None => RNonNumeric
        end
    | XSeq _ => RNonNumeric
    end.

(** ** Dictionaries *)

Lemma dict_mem_get {V} (k : string) (d : dict V) :
  dict_mem k d = true -> exists v, dict_get k d = Some v /\ In (k, v) d.
Proof.
  unfold dict_mem. induction d as [|[k' v'] d IH]; simpl; [discriminate|].
  destruct (String.eqb k k') eqn:E.
  - apply String.eqb_eq in E. subst. intros _. exists v'. auto.
  - intros H. destruct (IH H) as [v [Hg Hin]]. exists v. auto.
Qed.

Lemma dict_get_in_keys {V} (k : string) (d : dict V) :
  In k (keys d) <-> dict_get k d <> None.
Proof.
  induction d as [|[k' v'] d IH]; simpl.
  - split; [tauto | congruence].
  - destruct (String.eqb k k') eqn:E.
    + apply String.eqb_eq in E. subst. split; [congruence | auto].
    + apply String.eqb_neq in E. rewrite <- IH. split; [|auto].
      intros [H|H]; [congruence | exact H].
Qed.

Lemma dict_get_set {V} (k k' : string) (v : V) (d : dict V) :
  dict_get k (dict_set k' v d)
  = if String.eqb k k' then Some v else dict_get k d.
Proof.
  induction d as [|[k0 v0] d IH]; simpl.
  - destruct (String.eqb k k'); reflexivity.
  - destruct (String.eqb k' k0) eqn:E0; simpl.
    + apply String.eqb_eq in E0. subst k0.
      destruct (String.eqb k k'); reflexivity.
    + destruct (String.eqb k k0) eqn:E1.
      * apply String.eqb_eq in E1. subst k0.
        rewrite String.eqb_sym in E0. rewrite E0. reflexivity.
      * exact IH.
Qed.

Lemma dict_set_fresh {V} (k : string) (v : V) (d : dict V) :
  ~ In k (keys d) -> dict_set k v d = d ++ [(k, v)].
Proof.
  induction d as [|[k0 v0] d IH]; simpl; intros H; [reflexivity|].
  destruct (String.eqb k k0) eqn:E.
  - apply String.eqb_eq in E. subst. tauto.
  - rewrite IH by tauto. reflexivity.
Qed.

Lemma dict_update_fresh {V} (other d : dict V) :
  NoDup (keys other) ->
  (forall k, In k (keys other) -> ~ In k (keys d)) ->
  dict_update d other = d ++ other.
Proof.
  unfold dict_update. revert d.
  induction other as [|[k v] other IH]; simpl; intros d Hnd Hfresh.
  - now rewrite app_nil_r.
  - inversion Hnd as [|? ? Hk Hnd']; subst.
    rewrite dict_set_fresh by (apply Hfresh; auto).
    rewrite IH; [now rewrite <- app_assoc | exact Hnd' |].
    intros k0 Hk0. unfold keys. rewrite map_app, in_app_iff. simpl.
    intros [H|[H|[]]].
    + apply (Hfresh k0); auto.
    + subst. tauto.
Qed.

(** ** The monad *)

Lemma bind_inl {A B} (m : M A) (k : A -> M B) w w' e :
  m w = (w', inl e) -> bind m k w = (w', inl e).
Proof. unfold bind. intros ->. reflexivity. Qed.

Lemma bind_inr {A B} (m : M A) (k : A -> M B) w w' a :
  m w = (w', inr a) -> bind m k w = k a w'.
Proof. unfold bind. intros ->. reflexivity. Qed.

(** ** The input checks *)

Lemma check_parameter_bounds_ok pb pg :
  check_parameter_bounds pb pg = ok ->
  Forall (fun kv => dict_mem (fst kv) pg = true /\ length (snd kv) = 2%nat) pb.
Proof.
  induction pb as [|[k v] pb IH]; simpl; intros H; [constructor|].
  destruct (dict_mem k pg) eqn:Em; simpl in H; [|discriminate].
  destruct (Nat.eqb (length v) 2) eqn:E; simpl in H; [|discriminate].
  constructor; [|auto]. simpl. split; [exact Em|]. now apply Nat.eqb_eq.
Qed.

Lemma check_parameter_bounds_error pb pg e :
  check_parameter_bounds pb pg = inl e ->
  (exists k, e = ValueError_bounds_key k) \/ e = ValueError_bounds_format.
Proof.
  induction pb as [|[k v] pb IH]; simpl; intros H; [discriminate|].
  destruct (dict_mem k pg); simpl in H.
  - destruct (Nat.eqb (length v) 2); simpl in H; [auto|].
    inversion H. auto.
  - inversion H. eauto.
Qed.

Lemma check_logspace_error b y e :
  check_logspace b y = inl e -> e = ValueError_logspace.
Proof.
  unfold check_logspace. destruct b; [|discriminate].
  destruct (all_positive y); simpl; [discriminate|]. now inversion 1.
Qed.

Lemma check_lengths_error items n e :
  check_lengths items n = inl e ->
  exists key value,
    In (key, value) items /\ length value <> n
    /\ e = ValueError_series key (length value) n.
Proof.
  induction items as [|[k v] items IH]; simpl; intros H; [discriminate|].
  destruct (Nat.eqb (length v) n) eqn:E; simpl in H.
  - destruct (IH H) as (key & value & Hin & Hne & He).
    exists key, value. auto.
  - inversion H. apply Nat.eqb_neq in E. exists k, v. auto.
Qed.

Lemma check_lengths_ok items n :
  check_lengths items n = ok <->
  (forall key value, In (key, value) items -> length value = n).
Proof.
  induction items as [|[k v] items IH]; simpl.
  - split; [intros _ ? ? [] | reflexivity].
  - destruct (Nat.eqb (length v) n) eqn:E; simpl.
    + apply Nat.eqb_eq in E. rewrite IH. split.
      * intros H key value [Heq|Hin]; [injection Heq as <- <-; exact E | eauto].
      * intros H key value Hin. eauto.
    + apply Nat.eqb_neq in E. split; [discriminate|].
      intros H. exfalso. apply E. apply (H k v). auto.
Qed.

Lemma validate_error x y pg pb wts b e :
  validate x y pg pb wts b = inl e ->
  match e with
  | ValueError_bounds_key _ | ValueError_bounds_format
  | ValueError_logspace | ValueError_series _ _ _ => True
  | _ => False
  end.
Proof.
  unfold validate, and_then.
  destruct (check_parameter_bounds _ pg) eqn:E1.
  - intros H. inversion H. subst.
    destruct (check_parameter_bounds_error _ _ _ E1) as [[k ->]| ->]; exact I.
  - destruct (check_logspace b y) eqn:E2.
    + intros H. inversion H. subst.
      now rewrite (check_logspace_error _ _ _ E2).
    + intros H. destruct (check_lengths_error _ _ _ H) as (k & v & _ & _ & ->).
      exact I.
Qed.

(** ** Declaring the parameters *)

Lemma bound_item_ok pb pg name i :
  check_parameter_bounds pb pg = ok ->
  dict_mem name pb = true -> (i < 2)%nat ->
  exists b, bound_item pb name i = inr b.
Proof.
  intros H Hm Hi. apply check_parameter_bounds_ok in H.
  destruct (dict_mem_get _ _ Hm) as [v [Hg Hin]].
  unfold bound_item. rewrite Hg.
  rewrite Forall_forall in H. destruct (H _ Hin) as [_ Hl]. simpl in Hl.
  unfold length in Hl.
  destruct (nth_error v i) eqn:E; [eauto|].
  apply nth_error_None in E. lia.
Qed.

Lemma declare_parameters_run pb pg0 :
  check_parameter_bounds pb pg0 = ok ->
  forall pg params w o, opti w = Some o ->
  exists vs,
    length vs = length pg /\
    declare_parameters pg pb params w
    = (mk_world
         (Some (mk_Opti (variables o ++ vs) (next_index o + length pg)
                  (constraints o) (objective o)))
         (model_evals w) (solve_calls w),
       inr (param_symbols pg (next_index o) params)).
Proof.
  intros Hpb. induction pg as [|[name g] pg IH]; intros params w o Ho.
  - exists []. split; [reflexivity|]. simpl. unfold ret.
    rewrite app_nil_r, Nat.add_0_r. destruct w, o. simpl in *. now subst.
  - simpl declare_parameters.
    assert (Hv : exists d,
      (if dict_mem name pb
       then lb <- lift (bound_item pb name 0) ;;
            ub <- lift (bound_item pb name 1) ;;
            Opti_variable_scalar g lb ub
       else Opti_variable_scalar g None None) w
      = (mk_world
           (Some (mk_Opti (variables o ++ [d]) (next_index o + 1)
                    (constraints o) (objective o)))
           (model_evals w) (solve_calls w),
         inr (Var (next_index o)))).
    { destruct (dict_mem name pb) eqn:Em.
      - destruct (bound_item_ok pb pg0 name 0 Hpb Em) as [lb Hlb]; [lia|].
        destruct (bound_item_ok pb pg0 name 1 Hpb Em) as [ub Hub]; [lia|].
        unfold bind, lift. rewrite Hlb, Hub.
        unfold Opti_variable_scalar, with_opti. rewrite Ho. eauto.
      - unfold Opti_variable_scalar, with_opti. rewrite Ho. eauto. }
    destruct Hv as [d Hd]. rewrite (bind_inr _ _ _ _ _ Hd).
    match type of Hd with _ = (?w1, _) =>
      destruct (IH (dict_set name (Var (next_index o)) params) w1 _ eq_refl)
        as [vs [Hl Hr]]
    end.
    simpl in Hr. exists (d :: vs).
    split; [unfold length in *; simpl; lia|].
    rewrite Hr. unfold length. simpl.
    rewrite <- app_assoc. simpl.
    replace (next_index o + 1 + List.length pg)%nat
      with (next_index o + S (List.length pg))%nat by lia.
    now rewrite Nat.add_1_r.
Qed.

(** ** The formulation *)

Lemma formulate_invalid mdl x y pg pb nt wts b e :
  validate x y pg pb wts b = inl e ->
  forall w, formulate mdl x y pg pb nt wts b w = (w, inl e).
Proof.
  unfold validate, formulate, and_then, bind, lift. intros H w.
  destruct (check_parameter_bounds _ pg); [now inversion H|].
  destruct (check_logspace b y); [now inversion H|].
  destruct (check_lengths _ _); [now inversion H|]. destruct u. discriminate.
Qed.

(** The formulation on inputs that pass the checks: one scalar variable per
    parameter, then the model, the residual and the objective. *)
Lemma formulate_valid mdl x y pg pb nt wts b :
  validate x y pg pb wts b = inr tt ->
  exists o1,
    length (variables o1) = length pg /\ constraints o1 = []
    /\ objective o1 = None /\ next_index o1 = length pg
    /\ formulate mdl x y pg pb nt wts b world0
       = let params := param_symbols pg 0 [] in
         let w1 := mk_world (Some o1) 1 0 in
         match mdl x params with
         | RNone => (w1, inl TypeError_model_None)
         | y_model =>
             match compute_error b y_model y with
             | inl e => (w1, inl e)
             | inr ye =>
                 (minimize_norm nt (snd ye) y ;;; ret (params, fst ye)) w1
             end
         end.
Proof.
  unfold validate, formulate, and_then. intros H.
  destruct (check_parameter_bounds _ pg) eqn:E1; [discriminate|].
  destruct (check_logspace b y) eqn:E2; [discriminate|].
  destruct u, u0.
  destruct (declare_parameters_run _ _ E1 pg []
              (mk_world (Some Opti_new) 0 0) Opti_new eq_refl)
    as [vs [Hl Hr]].
  simpl in Hr.
  eexists. split; [|split; [|split; [|split]]]; cycle 4.
  - unfold bind at 1. unfold lift at 1.
    unfold bind at 1. unfold lift at 1.
    unfold bind at 1. unfold lift at 1. rewrite H.
    unfold bind at 1. unfold Opti_create at 1. simpl.
    unfold bind at 1. rewrite Hr.
    unfold bind at 1. unfold evaluate_model. simpl.
    destruct (mdl x (param_symbols pg 0 [])); reflexivity.
  - simpl. exact Hl.
  - reflexivity.
  - reflexivity.
  - reflexivity.
Qed.

Lemma broadcast_error {A B C} (f : A -> B -> C) a b e :
  broadcast f a b = inl e -> e = ValueError_broadcast.
Proof.
  unfold broadcast. destruct (Nat.eqb _ _); [discriminate|].
  destruct a as [|? [|? ?]]; destruct b as [|? [|? ?]];
    try discriminate; now inversion 1.
Qed.

(** What [minimize_norm] can do to a world that has an environment. *)
Lemma minimize_norm_cases nt error y w o :
  opti w = Some o ->
  (minimize_norm nt error y w = (w, inl ValueError_residual_type)
   /\ lower nt <> "l1" /\ lower nt <> "l2" /\ lower nt <> "linf")
  \/ (exists w',
        minimize_norm nt error y w = (w', inl ValueError_broadcast)
        /\ model_evals w' = model_evals w /\ solve_calls w' = solve_calls w
        /\ exists o', opti w' = Some o' /\ lower nt = "l1"
             /\ (length (variables o) <= length (variables o'))%nat)
  \/ (exists o' f,
        minimize_norm nt error y w
        = (mk_world (Some o') (model_evals w) (solve_calls w), inr tt)
        /\ objective o' = Some f
        /\ (length (variables o) <= length (variables o'))%nat
        /\ (lower nt = "l1" \/ lower nt = "l2" \/ lower nt = "linf")).
Proof.
  intros Ho. unfold minimize_norm.
  destruct (String.eqb (lower nt) "l1") eqn:E1.
  - apply String.eqb_eq in E1. right.
    unfold bind, lift, Opti_variable, Opti_subject_to, Opti_minimize,
      with_opti.
    rewrite Ho. simpl.
    destruct (broadcast Ge _ error) as [e|c1] eqn:B1.
    { left. apply broadcast_error in B1. subst e.
      eexists. split; [reflexivity|]. simpl. repeat split.
      eexists. split; [reflexivity|]. split; [exact E1|].
      unfold length; simpl; rewrite length_app; simpl; lia. }
    destruct (broadcast Ge _ (map Neg error)) as [e|c2] eqn:B2.
    { left. apply broadcast_error in B2. subst e.
      eexists. split; [reflexivity|]. simpl. repeat split.
      eexists. split; [reflexivity|]. split; [exact E1|].
      unfold length; simpl; rewrite length_app; simpl; lia. }
    right. do 2 eexists. split; [reflexivity|]. simpl.
    split; [reflexivity|]. split; [|auto].
    unfold length; simpl; rewrite length_app; simpl; lia.
  - destruct (String.eqb (lower nt) "l2") eqn:E2.
    + apply String.eqb_eq in E2. right; right.
      unfold Opti_minimize, with_opti. rewrite Ho.
      do 2 eexists. split; [reflexivity|]. simpl.
      split; [reflexivity|]. split; [|auto]. unfold length. lia.
    + destruct (String.eqb (lower nt) "linf") eqn:E3.
      * apply String.eqb_eq in E3. right; right.
        unfold bind, Opti_variable_scalar, Opti_subject_to, Opti_minimize,
          with_opti. rewrite Ho. simpl.
        do 2 eexists. split; [reflexivity|]. simpl.
        split; [reflexivity|]. split; [|auto].
        unfold length; simpl; rewrite length_app; simpl; lia.
      * left. apply String.eqb_neq in E1, E2, E3. unfold raise. auto.
Qed.

(** The L2 branch sets the sum of squared residuals and nothing else. *)
Lemma minimize_norm_l2 nt error y w o :
  opti w = Some o -> lower nt = "l2" ->
  minimize_norm nt error y w
  = (mk_world
       (Some (mk_Opti (variables o) (next_index o) (constraints o)
                (Some (sum1_sym (map Pow2 error)))))
       (model_evals w) (solve_calls w), inr tt).
Proof.
  intros Ho Hl. unfold minimize_norm. rewrite Hl. simpl.
  unfold Opti_minimize, with_opti. now rewrite Ho.
Qed.

(** What [apply_fit_type] can do to a world that has an environment. *)
Lemma apply_fit_type_cases ft ym y w o :
  opti w = Some o ->
  apply_fit_type ft ym y w
  = if String.eqb ft "best" then (w, inr tt)
    else if String.eqb ft "upper bound" then
      match broadcast Ge ym (map Num y) with
      | inl e => (w, inl e)
      | inr c =>
          (mk_world
             (Some (mk_Opti (variables o) (next_index o) (constraints o ++ c)
                      (objective o)))
             (model_evals w) (solve_calls w), inr tt)
      end
    else if String.eqb ft "lower bound" then
      match broadcast Le ym (map Num y) with
      | inl e => (w, inl e)
      | inr c =>
          (mk_world
             (Some (mk_Opti (variables o) (next_index o) (constraints o ++ c)
                      (objective o)))
             (model_evals w) (solve_calls w), inr tt)
      end
    else (w, inl ValueError_fit_type).
Proof.
  intros Ho. unfold apply_fit_type.
  destruct (String.eqb ft "best"); [reflexivity|].
  destruct (String.eqb ft "upper bound").
  { unfold bind, lift. destruct (broadcast Ge ym (map Num y)); [reflexivity|].
    unfold Opti_subject_to, with_opti. now rewrite Ho. }
  destruct (String.eqb ft "lower bound").
  { unfold bind, lift. destruct (broadcast Le ym (map Num y)); [reflexivity|].
    unfold Opti_subject_to, with_opti. now rewrite Ho. }
  reflexivity.
Qed.

Lemma broadcast_same_length {A B C} (f : A -> B -> C) a b :
  length a = length b -> broadcast f a b = inr (zip_with f a b).
Proof.
  unfold broadcast. intros ->. now rewrite Nat.eqb_refl.
Qed.

Lemma compute_error_error b ym y e :
  compute_error b ym y = inl e ->
  e = TypeError_operand \/ e = ValueError_broadcast.
Proof.
  unfold compute_error. destruct ym; simpl; try (now inversion 1; auto).
  destruct (negb b).
  - destruct (broadcast Sub v (map Num y)) eqn:B; [|discriminate].
    intros H. inversion H. subst. right. eapply broadcast_error; eauto.
  - destruct (broadcast Sub _ _) eqn:B; [|discriminate].
    intros H. inversion H. subst. right. eapply broadcast_error; eauto.
Qed.

(** ** Running [fit_model] *)

Section Runs.

Variable solution : Type.
Variable solve : Opti -> option solution.
Variable sol_value : solution -> sexpr -> option Q.

Lemma fit_model_unfold mdl x y pg pb nt ft wts b w :
  fit_model solution solve sol_value mdl x y pg pb nt ft wts b w
  = match formulate mdl x y pg pb nt wts b w with
    | (w1, inl e) => (w1, inl e)
    | (w1, inr py) =>
        match apply_fit_type ft (snd py) y w1 with
        | (w2, inl e) => (w2, inl e)
        | (w2, inr _) =>
            match Opti_solve solution solve w2 with
            | (w3, inl e) => (w3, inl e)
            | (w3, inr sol) =>
                (w3, inr (mk_FittedModel mdl
                            (extract_parameters solution sol_value sol (fst py)
                               (keys (fst py)) [])
                            x y))
            end
        end
    end.
Proof.
  unfold fit_model, build_problem, bind, ret.
  destruct (formulate mdl x y pg pb nt wts b w) as [w1 [e|py]]; [reflexivity|].
  destruct (apply_fit_type ft (snd py) y w1) as [w2 [e|u]]; [reflexivity|].
  destruct (Opti_solve solution solve w2) as [w3 [e|sol]]; reflexivity.
Qed.

Lemma build_problem_unfold mdl x y pg pb nt ft wts b w :
  build_problem mdl x y pg pb nt ft wts b w
  = match formulate mdl x y pg pb nt wts b w with
    | (w1, inl e) => (w1, inl e)
    | (w1, inr py) =>
        match apply_fit_type ft (snd py) y w1 with
        | (w2, inl e) => (w2, inl e)
        | (w2, inr _) => (w2, inr (fst py))
        end
    end.
Proof.
  unfold build_problem, bind, ret.
  destruct (formulate mdl x y pg pb nt wts b w) as [w1 [e|py]]; [reflexivity|].
  destruct (apply_fit_type ft (snd py) y w1) as [w2 [e|u]]; reflexivity.
Qed.

Lemma fit_model_invalid mdl x y pg pb nt ft wts b e :
  validate x y pg pb wts b = inl e ->
  fit_model solution solve sol_value mdl x y pg pb nt ft wts b world0
  = (world0, inl e).
Proof.
  intros H. rewrite fit_model_unfold.
  now rewrite (formulate_invalid mdl x y pg pb nt wts b e H).
Qed.

(** Every way a formulation can end on inputs that pass the checks. *)
Lemma formulate_valid_outcomes mdl x y pg pb nt wts b w r :
  validate x y pg pb wts b = inr tt ->
  formulate mdl x y pg pb nt wts b world0 = (w, r) ->
  match r with
  | inl TypeError_model_None =>
      nothing_assembled pg w /\ mdl x (param_symbols pg 0 []) = RNone
  | inl TypeError_operand =>
      nothing_assembled pg w /\ mdl x (param_symbols pg 0 []) = RNonNumeric
  | inl ValueError_residual_type =>
      nothing_assembled pg w
      /\ lower nt <> "l1" /\ lower nt <> "l2" /\ lower nt <> "linf"
  | inl ValueError_broadcast => formulated pg w
  | inl _ => False
  | inr py =>
      formulated pg w
      /\ (exists o f, opti w = Some o /\ objective o = Some f)
      /\ fst py = param_symbols pg 0 []
      /\ (lower nt = "l1" \/ lower nt = "l2" \/ lower nt = "linf")
      /\ exists error,
           compute_error b (mdl x (param_symbols pg 0 [])) y
           = inr (snd py, error)
  end.
Proof.
  intros Hv Hf.
  destruct (formulate_valid mdl x y pg pb nt wts b Hv)
    as (o1 & Hlen & Hc & Hobj & Hnext & Heq).
  rewrite Heq in Hf. clear Heq. cbv zeta in Hf.
  assert (Hna : nothing_assembled pg (mk_world (Some o1) 1 0)).
  { repeat split. exists o1. auto. }
  assert (Hfd : formulated pg (mk_world (Some o1) 1 0)).
  { repeat split. exists o1. split; [reflexivity|]. rewrite Hlen. lia. }
  assert (Hrest : forall ym,
    mdl x (param_symbols pg 0 []) = ym -> ym <> RNone ->
    match compute_error b ym y with
    | inl e => ({| opti := Some o1; model_evals := 1; solve_calls := 0 |}, inl e)
    | inr ye =>
        (minimize_norm nt (snd ye) y;;; ret (param_symbols pg 0 [], fst ye))
          {| opti := Some o1; model_evals := 1; solve_calls := 0 |}
    end = (w, r) ->
    match r with
    | inl TypeError_model_None =>
        nothing_assembled pg w /\ mdl x (param_symbols pg 0 []) = RNone
    | inl TypeError_operand =>
        nothing_assembled pg w /\ mdl x (param_symbols pg 0 []) = RNonNumeric
    | inl ValueError_residual_type =>
        nothing_assembled pg w
        /\ lower nt <> "l1" /\ lower nt <> "l2" /\ lower nt <> "linf"
    | inl ValueError_broadcast => formulated pg w
    | inl _ => False
    | inr py =>
        formulated pg w
        /\ (exists o f, opti w = Some o /\ objective o = Some f)
        /\ fst py = param_symbols pg 0 []
        /\ (lower nt = "l1" \/ lower nt = "l2" \/ lower nt = "linf")
        /\ exists error,
             compute_error b (mdl x (param_symbols pg 0 [])) y
             = inr (snd py, error)
    end).
  { intros ym Hm Hnn Hrun. rewrite Hm.
    destruct (compute_error b ym y) as [e|[ym' error]] eqn:Ec.
    - inversion Hrun; subst w r. clear Hrun.
      destruct ym; [congruence| |].
      + destruct (compute_error_error _ _ _ _ Ec) as [->| ->].
        * exfalso. unfold compute_error in Ec. simpl in Ec.
          destruct (negb b); destruct (broadcast _ _ _) eqn:B;
            try discriminate;
            apply broadcast_error in B; congruence.
        * exact Hfd.
      + simpl in Ec. inversion Ec. auto.
    - simpl in Hrun.
      destruct (minimize_norm_cases nt error y
                  (mk_world (Some o1) 1 0) o1 eq_refl)
        as [[Hr Hne] | [(w' & Hr & Hme & Hsc & o' & Ho' & Hl1 & Hlv)
                       | (o' & f & Hr & Hob & Hlv & Hnt)]];
        rewrite (bind_inl _ _ _ _ _ Hr) in Hrun
        || rewrite (bind_inr _ _ _ _ _ Hr) in Hrun;
        inversion Hrun; subst w r; clear Hrun.
      + auto.
      + simpl in Hme, Hsc. repeat split; auto.
        exists o'. split; [exact Ho'|]. rewrite <- Hlen. exact Hlv.
      + simpl. split; [|split; [|split; [|split]]]; auto.
        * repeat split. exists o'. split; [reflexivity|].
          rewrite <- Hlen. exact Hlv.
        * eauto.
        * exists error. reflexivity. }
  destruct (mdl x (param_symbols pg 0 [])) eqn:Em.
  - inversion Hf; subst w r. auto.
  - apply (Hrest (RArray v)); [reflexivity | discriminate | exact Hf].
  - apply (Hrest RNonNumeric); [reflexivity | discriminate | exact Hf].
Qed.

(** Every way [fit_model] can end on inputs that pass the checks. *)
Lemma fit_model_valid_outcomes mdl x y pg pb nt ft wts b w r :
  validate x y pg pb wts b = inr tt ->
  fit_model solution solve sol_value mdl x y pg pb nt ft wts b world0 = (w, r) ->
  match r with
  | inl TypeError_model_None | inl TypeError_operand => nothing_assembled pg w
  | inl ValueError_residual_type =>
      nothing_assembled pg w
      /\ lower nt <> "l1" /\ lower nt <> "l2" /\ lower nt <> "linf"
  | inl ValueError_broadcast => formulated pg w
  | inl ValueError_fit_type =>
      formulated pg w /\ exists o f, opti w = Some o /\ objective o = Some f
  | inl SolveFailure => solve_calls w = 1%nat /\ model_evals w = 1%nat
  | inl _ => False
  | inr fm => solve_calls w = 1%nat /\ model_evals w = 1%nat
  end.
Proof.
  intros Hv. rewrite fit_model_unfold.
  destruct (formulate mdl x y pg pb nt wts b world0) as [w1 r1] eqn:Ef.
  pose proof (formulate_valid_outcomes mdl x y pg pb nt wts b w1 r1 Hv Ef)
    as Hout.
  destruct r1 as [e|py].
  - intros H. inversion H; subst w r. clear H.
    destruct e; try exact Hout; tauto.
  - destruct Hout as (Hfd & Hobj & _).
    pose proof Hfd as Hfd'.
    destruct Hfd' as (Hsc & Hme & o & Ho & Hlv).
    rewrite (apply_fit_type_cases ft (snd py) y w1 o Ho).
    assert (Hsolve : forall o2 w r,
      match Opti_solve solution solve (mk_world (Some o2) (model_evals w1) (solve_calls w1)) with
      | (w3, inl e) => (w3, inl e)
      | (w3, inr sol) =>
          (w3, inr (mk_FittedModel mdl
                      (extract_parameters solution sol_value sol (fst py)
                         (keys (fst py)) [])
                      x y))
      end = (w, r) ->
      match r with
      | inl TypeError_model_None | inl TypeError_operand =>
          nothing_assembled pg w
      | inl ValueError_residual_type =>
          nothing_assembled pg w
          /\ lower nt <> "l1" /\ lower nt <> "l2" /\ lower nt <> "linf"
      | inl ValueError_broadcast => formulated pg w
      | inl ValueError_fit_type =>
          formulated pg w /\ exists o f, opti w = Some o /\ objective o = Some f
      | inl SolveFailure => solve_calls w = 1%nat /\ model_evals w = 1%nat
      | inl _ => False
      | inr fm => solve_calls w = 1%nat /\ model_evals w = 1%nat
      end).
    { intros o2 w' r'. unfold Opti_solve. simpl.
      destruct (solve o2); intros H; inversion H; subst w' r'; simpl;
        rewrite Hsc, Hme; auto. }
    destruct (String.eqb ft "best").
    { destruct w1 as [ow me sc]. simpl in *. subst ow. apply Hsolve. }
    destruct (String.eqb ft "upper bound").
    { destruct (broadcast Ge (snd py) (map Num y)) eqn:B.
      - apply broadcast_error in B. subst e.
        intros H. inversion H; subst w r. exact Hfd.
      - apply Hsolve. }
    destruct (String.eqb ft "lower bound").
    { destruct (broadcast Le (snd py) (map Num y)) eqn:B.
      - apply broadcast_error in B. subst e.
        intros H. inversion H; subst w r. exact Hfd.
      - apply Hsolve. }
    intros H. inversion H; subst w r. auto.
Qed.

Lemma fit_model_input_error mdl x y pg pb nt ft wts b w e :
  fit_model solution solve sol_value mdl x y pg pb nt ft wts b world0
  = (w, inl e) ->
  is_input_error e = true ->
  validate x y pg pb wts b = inl e /\ w = world0.
Proof.
  intros Hrun He.
  destruct (validate x y pg pb wts b) as [e'|[]] eqn:Hv.
  - rewrite (fit_model_invalid mdl x y pg pb nt ft wts b e' Hv) in Hrun.
    inversion Hrun. auto.
  - pose proof (fit_model_valid_outcomes _ _ _ _ _ _ _ _ _ _ _ Hv Hrun) as H.
    destruct e; simpl in He; try discriminate; contradiction.
Qed.

End Runs.

(** ** Weights *)

Lemma sum1_divide v s : sum1 (divide v s) == sum1 v / s.
Proof.
  induction v as [|a v IH]; simpl.
  - unfold Qdiv. ring.
  - rewrite IH. unfold Qdiv. ring.
Qed.

Lemma sum1_scale c v : sum1 (map (Qmult c) v) == c * sum1 v.
Proof.
  induction v as [|a v IH]; simpl; [ring|]. rewrite IH. ring.
Qed.

Lemma sum1_ones n : sum1 (ones n) == inject_Z (Z.of_nat n).
Proof.
  induction n as [|n IH].
  - reflexivity.
  - change (ones (S n)) with (1 :: ones n). simpl sum1. rewrite IH.
    rewrite Nat2Z.inj_succ. unfold Z.succ. rewrite inject_Z_plus. ring.
Qed.

Lemma sum1_ones_nonzero n : (0 < n)%nat -> ~ sum1 (ones n) == 0.
Proof.
  intros Hn H. rewrite sum1_ones in H.
  unfold Qeq in H. simpl in H. lia.
Qed.

Lemma divide_scale c v s s' :
  ~ s == 0 -> 0 < c -> s' == c * s ->
  Forall2 Qeq (divide (map (Qmult c) v) s') (divide v s).
Proof.
  intros Hs Hc Hcs.
  induction v as [|a v IH]; simpl; constructor; [|exact IH].
  rewrite Hcs. field. split; [exact Hs|]. intros H0. rewrite H0 in Hc.
  apply (Qlt_irrefl 0). exact Hc.
Qed.

(** C4.  For every weight vector with a nonzero sum, the default uniform
    weights included, the weights that [fit_model] normalizes sum to 1, and
    normalizing the vector scaled by any positive [c] gives the same weights
    as normalizing the vector itself. *)
Theorem normalized_weights_sum_to_one_scale_invariant
  (n_datapoints : nat) (weights : option (list Q)) :
  let w := match weights with
           | None => ones n_datapoints
           | Some w => w
           end in
  ~ sum1 w == 0 ->
  sum1 (handle_weighting n_datapoints weights) == 1
  /\ forall c, 0 < c ->
       Forall2 Qeq
         (handle_weighting n_datapoints (Some (map (Qmult c) w)))
         (handle_weighting n_datapoints weights).
Proof.
  intros w Hs.
  assert (Hw : handle_weighting n_datapoints weights = divide w (sum1 w)).
  { unfold handle_weighting, w. destruct weights; reflexivity. }
  rewrite Hw. split.
  - rewrite sum1_divide. field. exact Hs.
  - intros c Hc. unfold handle_weighting.
    apply divide_scale; [exact Hs | exact Hc | apply sum1_scale].
Qed.

Lemma normalized_weights_witness :
  ~ sum1 (ones 3) == 0
  /\ sum1 (handle_weighting 3 None) == 1
  /\ Forall2 Qeq (handle_weighting 3 (Some (map (Qmult 5) (ones 3))))
       (handle_weighting 3 None).
Proof.
  assert (H : ~ sum1 (ones 3) == 0) by (apply sum1_ones_nonzero; lia).
  split; [exact H|].
  destruct (normalized_weights_sum_to_one_scale_invariant 3 None H) as [H1 H2].
  split; [exact H1|]. apply (H2 5). reflexivity.
Defined.

(** ** The residual *)

Lemma nth_error_zip_with {A B C} (f : A -> B -> C) a b i x y :
  nth_error a i = Some x -> nth_error b i = Some y ->
  nth_error (zip_with f a b) i = Some (f x y).
Proof.
  revert b i. induction a as [|x0 a IH]; intros [|y0 b] [|i]; simpl;
    try discriminate.
  - now intros [= ->] [= ->].
  - apply IH.
Qed.

Lemma length_zip_with {A B C} (f : A -> B -> C) a b :
  length a = length b -> length (zip_with f a b) = length b.
Proof.
  unfold length. revert b. induction a as [|x a IH]; intros [|y b]; simpl;
    try discriminate; [reflexivity|].
  intros H. f_equal. apply IH. lia.
Qed.

Lemma eps_positive : 0 < eps.
Proof. reflexivity. Qed.

(** C6.  The residual that [fit_model] forms from a prediction of the length
    of [y_data] is, entry by entry, [prediction - y_data] outside logspace and
    [log(max(prediction, eps)) - log(y_data)] in logspace, with [eps] a
    positive constant. *)
Theorem residual_is_elementwise_difference
  (ln : Q -> Q) (rho : nat -> Q) (prediction : list sexpr) (y_data : list Q) :
  length prediction = length y_data ->
  0 < eps
  /\ (exists error,
        compute_error false (RArray prediction) y_data
        = inr (prediction, error)
        /\ length error = length y_data
        /\ forall i p y,
             nth_error prediction i = Some p -> nth_error y_data i = Some y ->
             nth_error error i = Some (Sub p (Num y))
             /\ eval ln rho (Sub p (Num y)) = eval ln rho p - y)
  /\ (exists error,
        compute_error true (RArray prediction) y_data
        = inr (floor_prediction prediction, error)
        /\ length error = length y_data
        /\ forall i p y,
             nth_error prediction i = Some p -> nth_error y_data i = Some y ->
             nth_error error i
             = Some (Sub (Log (Fmax p (Num eps))) (Log (Num y)))
             /\ eval ln rho (Sub (Log (Fmax p (Num eps))) (Log (Num y)))
                = ln (Qmax (eval ln rho p) eps) - ln y).
Proof.
  intros Hlen. split; [exact eps_positive|]. split.
  - exists (zip_with Sub prediction (map Num y_data)).
    unfold compute_error. simpl.
    rewrite broadcast_same_length
      by (unfold length in *; now rewrite length_map).
    split; [reflexivity|]. split.
    + rewrite length_zip_with; unfold length in *; rewrite length_map; auto.
    + intros i p y Hp Hy. split; [|reflexivity].
      apply (nth_error_zip_with Sub prediction (map Num y_data) i p (Num y) Hp).
      now rewrite nth_error_map, Hy.
  - exists (zip_with Sub (map Log (floor_prediction prediction))
              (map (fun y => Log (Num y)) y_data)).
    unfold compute_error. simpl. fold (floor_prediction prediction).
    rewrite broadcast_same_length
      by (unfold length, floor_prediction in *; now rewrite !length_map).
    split; [reflexivity|]. split.
    + rewrite length_zip_with; unfold length, floor_prediction in *;
        rewrite !length_map; auto.
    + intros i p y Hp Hy. split; [|reflexivity].
      apply (nth_error_zip_with Sub (map Log (floor_prediction prediction))
               (map (fun y => Log (Num y)) y_data) i
               (Log (Fmax p (Num eps))) (Log (Num y))).
      * unfold floor_prediction. now rewrite !nth_error_map, Hp.
      * now rewrite nth_error_map, Hy.
Qed.

Lemma residual_witness :
  length [Var 0; Var 1] = length [2; 3]
  /\ exists error,
       compute_error false (RArray [Var 0; Var 1]) [2; 3]
       = inr ([Var 0; Var 1], error)
       /\ length error = length [2; 3]
       /\ forall i p y,
            nth_error [Var 0; Var 1] i = Some p ->
            nth_error [2; 3] i = Some y ->
            nth_error error i = Some (Sub p (Num y))
            /\ eval (fun q => q) (fun _ => 0) (Sub p (Num y))
               = eval (fun q => q) (fun _ => 0) p - y.
Proof.
  split; [reflexivity|].
  exact (proj1 (proj2 (residual_is_elementwise_difference
                         (fun q => q) (fun _ => 0) [Var 0; Var 1] [2; 3]
                         eq_refl))).
Defined.

(** ** The L2 objective *)

(** The weights only enter the length check: two weight vectors that both
    pass it lead to the same formulation. *)
Lemma formulate_ignores_weights mdl x y pg pb nt wts wts' b :
  validate x y pg pb wts b = inr tt ->
  validate x y pg pb wts' b = inr tt ->
  formulate mdl x y pg pb nt wts b world0
  = formulate mdl x y pg pb nt wts' b world0.
Proof.
  unfold validate, formulate, and_then, bind, lift. intros H H'.
  destruct (check_parameter_bounds _ pg); [discriminate|].
  destruct (check_logspace b y); [discriminate|].
  rewrite H, H'. reflexivity.
Qed.

(** On inputs that pass the checks, with a model that returns a vector, the
    L2 branch leaves the environment with the plain sum of the squared
    residuals as its objective. *)
Lemma formulate_L2_objective mdl x y pg pb nt wts b prediction y_model error :
  validate x y pg pb wts b = inr tt ->
  mdl x (param_symbols pg 0 []) = RArray prediction ->
  compute_error b (RArray prediction) y = inr (y_model, error) ->
  lower nt = "l2" ->
  exists o,
    formulate mdl x y pg pb nt wts b world0
    = (mk_world (Some o) 1 0, inr (param_symbols pg 0 [], y_model))
    /\ objective o = Some (sum1_sym (map Pow2 error))
    /\ constraints o = []
    /\ length (variables o) = length pg.
Proof.
  intros Hv Hm Hc Hl.
  destruct (formulate_valid mdl x y pg pb nt wts b Hv)
    as (o1 & Hlen & Hcs & Hobj & Hnext & Heq).
  rewrite Heq. cbv zeta. rewrite Hm, Hc.
  simpl snd. simpl fst.
  rewrite (bind_inr _ _ _ _ _
             (minimize_norm_l2 nt error y (mk_world (Some o1) 1 0) o1
                eq_refl Hl)).
  eexists. split; [reflexivity|]. simpl. auto.
Qed.

(** C1.  At [x_data = [1, 2]], [y_data = [0, 0]], [weights = [1, 3]] and the
    linear model, the objective that [fit_model] hands to the solver under
    "L2" is the unweighted sum of the squared residuals; at [m = 1], [b = 0]
    it is worth 5, where the weighted sum of the specification is worth
    13/4. *)
Theorem L2_objective_is_unweighted_at_input :
  let y := [0; 0] in
  let run :=
    fit_model Opti mock_solve (mock_value []) linear_model (XSeq [1; 2]) y
      guesses_mb None "L2" "best" (Some [1; 3]) false world0 in
  let weights := handle_weighting 2 (Some [1; 3]) in
  let prediction :=
    [Add (Mul (Var 0) (Num 1)) (Var 1); Add (Mul (Var 0) (Num 2)) (Var 1)] in
  let error := zip_with Sub prediction (map Num y) in
  let rho := fun i => match i with O => 1 | _ => 0 end in
  linear_model (XSeq [1; 2]) (param_symbols guesses_mb 0 []) = RArray prediction
  /\ compute_error false (RArray prediction) y = inr (prediction, error)
  /\ option_map objective (opti (fst run))
     = Some (Some (sum1_sym (map Pow2 error)))
  /\ eval (fun q => q) rho (sum1_sym (map Pow2 error)) == 5
  /\ eval (fun q => q) rho (spec_weighted_L2_objective weights error) == 13 # 4
  /\ ~ 5 == 13 # 4.
Proof.
  cbv zeta. split; [vm_compute; reflexivity|].
  split; [vm_compute; reflexivity|].
  split; [vm_compute; reflexivity|].
  split; [vm_compute; reflexivity|].
  split; [vm_compute; reflexivity|].
  intros H. vm_compute in H. discriminate.
Qed.

(** ** Errors and the order of the work *)

Section Errors.

Variable solution : Type.
Variable solve : Opti -> option solution.
Variable sol_value : solution -> sexpr -> option Q.

Local Notation "'fit'" := (fit_model solution solve sol_value).

(** C2, as the code has it.  The errors of the input checks (series lengths,
    bounds key, bound tuple, positivity under logspace) are raised before any
    decision variable exists, before the model is evaluated and before any
    solve.  The unknown-norm error is raised once the parameters are declared
    and the model has been evaluated, with no objective, no constraint and no
    solve yet; the unknown-fit_type error is raised later still, once the
    objective is set, and still before any solve. *)
Theorem validation_errors_before_solve mdl x y pg pb nt ft wts b w e :
  fit mdl x y pg pb nt ft wts b world0 = (w, inl e) ->
  is_validation_error e = true ->
  match e with
  | ValueError_residual_type =>
      solve_calls w = 0%nat /\ model_evals w = 1%nat
      /\ exists o, opti w = Some o /\ length (variables o) = length pg
           /\ objective o = None /\ constraints o = []
  | ValueError_fit_type =>
      solve_calls w = 0%nat /\ model_evals w = 1%nat
      /\ exists o f, opti w = Some o /\ objective o = Some f
           /\ (length pg <= length (variables o))%nat
  | _ => w = world0
  end.
Proof.
  intros Hrun He.
  destruct (is_input_error e) eqn:Hi.
  - destruct (fit_model_input_error _ _ _ _ _ _ _ _ _ _ _ _ _ _ Hrun Hi)
      as [_ ->].
    destruct e; simpl in Hi; try discriminate; reflexivity.
  - destruct (validate x y pg pb wts b) as [e'|[]] eqn:Hv.
    + rewrite (fit_model_invalid _ _ _ mdl x y pg pb nt ft wts b e' Hv)
        in Hrun.
      inversion Hrun; subst. apply validate_error in Hv.
      destruct e; simpl in Hi; try discriminate; contradiction.
    + pose proof (fit_model_valid_outcomes _ _ _ _ _ _ _ _ _ _ _ _ _ _
                    Hv Hrun) as H.
      destruct e; simpl in He, Hi; try discriminate.
      * destruct H as [H _]. exact H.
      * destruct H as [(Hsc & Hme & o & Ho & Hlv) (o' & f & Ho' & Hf)].
        repeat split; auto. exists o, f.
        rewrite Ho in Ho'. inversion Ho'. subst o'. auto.
Qed.

(** C3.  On inputs that pass the checks, a model that hands back [None] or
    a value without arithmetic makes [fit_model] fail with a type error, with
    no objective set, no constraint registered and no solve attempted. *)
Theorem ill_formed_model_result_is_type_error mdl x y pg pb nt ft wts b :
  validate x y pg pb wts b = inr tt ->
  mdl x (param_symbols pg 0 []) = RNone
  \/ mdl x (param_symbols pg 0 []) = RNonNumeric ->
  exists w e,
    fit mdl x y pg pb nt ft wts b world0 = (w, inl e)
    /\ is_type_error e = true
    /\ (e = TypeError_model_None <-> mdl x (param_symbols pg 0 []) = RNone)
    /\ solve_calls w = 0%nat
    /\ exists o, opti w = Some o /\ objective o = None /\ constraints o = [].
Proof.
  intros Hv Hm.
  destruct (formulate_valid mdl x y pg pb nt wts b Hv)
    as (o1 & Hlen & Hc & Hobj & Hnext & Heq).
  exists (mk_world (Some o1) 1 0).
  rewrite fit_model_unfold, Heq. cbv zeta.
  destruct Hm as [Hm|Hm]; rewrite Hm.
  - exists TypeError_model_None.
    split; [reflexivity|]. split; [reflexivity|]. split; [tauto|].
    split; [reflexivity|]. exists o1. auto.
  - exists TypeError_operand.
    split; [reflexivity|]. split; [reflexivity|].
    split; [split; discriminate|].
    split; [reflexivity|]. exists o1. auto.
Qed.

End Errors.

Lemma validation_errors_before_solve_witness :
  let run :=
    outcome (fit_model Opti mock_solve (mock_value []) linear_model
               (XSeq [0; 1; 2]) [1; 3] guesses_mb None "L2" "best" None false
               world0) in
  snd run = inl (ValueError_series "x_data" 3 2) /\ fst run = world0.
Proof.
  split; [vm_compute; reflexivity|].
  refine (validation_errors_before_solve Opti mock_solve (mock_value [])
            linear_model (XSeq [0; 1; 2]) [1; 3] guesses_mb None "L2" "best"
            None false _ (ValueError_series "x_data" 3 2) _ eq_refl).
  vm_compute. reflexivity.
Defined.

(** C2, as stated, fails: with the unknown norm "L3" the validation error is
    raised after two decision variables were declared and the model was
    evaluated. *)
Lemma unknown_norm_raised_after_model_evaluation :
  let run :=
    outcome (fit_model Opti mock_solve (mock_value []) linear_model
               (XSeq [0; 1; 2]) [1; 3; 5] guesses_mb None "L3" "best" None
               false world0) in
  snd run = inl ValueError_residual_type
  /\ is_validation_error ValueError_residual_type = true
  /\ model_evals (fst run) = 1%nat
  /\ option_map (fun o => length (variables o)) (opti (fst run)) = Some 2%nat
  /\ fst run <> world0.
Proof.
  cbv zeta. repeat split; try (vm_compute; reflexivity).
  intros H. vm_compute in H. discriminate.
Qed.

Lemma ill_formed_model_result_witness :
  validate (XSeq [0; 1; 2]) [1; 3; 5] guesses_mb None None false = inr tt
  /\ (none_model (XSeq [0; 1; 2]) (param_symbols guesses_mb 0 []) = RNone
      \/ none_model (XSeq [0; 1; 2]) (param_symbols guesses_mb 0 [])
         = RNonNumeric)
  /\ exists w e,
       fit_model Opti mock_solve (mock_value []) none_model (XSeq [0; 1; 2])
         [1; 3; 5] guesses_mb None "L2" "best" None false world0
       = (w, inl e)
       /\ is_type_error e = true
       /\ (e = TypeError_model_None
           <-> none_model (XSeq [0; 1; 2]) (param_symbols guesses_mb 0 [])
               = RNone)
       /\ solve_calls w = 0%nat
       /\ exists o, opti w = Some o /\ objective o = None /\ constraints o = [].
Proof.
  split; [vm_compute; reflexivity|]. split; [left; reflexivity|].
  apply ill_formed_model_result_is_type_error;
    [vm_compute; reflexivity | left; reflexivity].
Defined.

(** ** The constraints of [fit_type] *)

Lemma compute_error_same_length b prediction y :
  length prediction = length y ->
  exists error,
    compute_error b (RArray prediction) y
    = inr (if b then floor_prediction prediction else prediction, error).
Proof.
  intros Hl. unfold compute_error. simpl. destruct b; simpl.
  - fold (floor_prediction prediction).
    rewrite broadcast_same_length
      by (unfold length, floor_prediction in *; now rewrite !length_map).
    eauto.
  - rewrite broadcast_same_length
      by (unfold length in *; now rewrite length_map).
    eauto.
Qed.

Lemma formulate_inr_valid mdl x y pg pb nt wts b w py :
  formulate mdl x y pg pb nt wts b world0 = (w, inr py) ->
  validate x y pg pb wts b = inr tt.
Proof.
  intros H. destruct (validate x y pg pb wts b) as [e|[]] eqn:Hv; [|reflexivity].
  rewrite (formulate_invalid mdl x y pg pb nt wts b e Hv) in H. discriminate.
Qed.

(** What the [fit_type] step does to the environment: it leaves variables
    and objective as the norm step left them and appends constraints only,
    none for "best", [y_model_i >= y_data_i] for every i for "upper bound",
    [y_model_i <= y_data_i] for every i for "lower bound", on the value that
    [y_model] has by then: the model's prediction outside logspace, the
    floored prediction in logspace. *)
Theorem fit_type_step_appends_constraints_only
  mdl x y pg pb nt ft wts b prediction w params y_model :
  ft = "best" \/ ft = "upper bound" \/ ft = "lower bound" ->
  mdl x (param_symbols pg 0 []) = RArray prediction ->
  length prediction = length y ->
  formulate mdl x y pg pb nt wts b world0 = (w, inr (params, y_model)) ->
  y_model = (if b then floor_prediction prediction else prediction)
  /\ exists o,
       opti w = Some o
       /\ build_problem mdl x y pg pb nt ft wts b world0
          = (mk_world
               (Some (mk_Opti (variables o) (next_index o)
                        (constraints o ++ envelope_constraints ft y_model y)
                        (objective o)))
               (model_evals w) (solve_calls w), inr params).
Proof.
  intros Hft Hm Hl Hf.
  pose proof (formulate_inr_valid _ _ _ _ _ _ _ _ _ _ Hf) as Hv.
  pose proof (formulate_valid_outcomes _ _ _ _ _ _ _ _ _ _ Hv Hf) as Hout.
  simpl in Hout.
  destruct Hout as ((_ & _ & o & Ho & _) & _ & _ & _ & error & Hc).
  rewrite Hm in Hc.
  destruct (compute_error_same_length b prediction y Hl) as [error' Hc'].
  rewrite Hc' in Hc. inversion Hc; subst y_model. clear Hc.
  split; [reflexivity|]. exists o. split; [exact Ho|].
  rewrite build_problem_unfold, Hf. simpl fst. simpl snd.
  rewrite (apply_fit_type_cases ft _ y w o Ho).
  assert (Hlen : length (if b then floor_prediction prediction else prediction)
                 = length (map Num y)).
  { unfold length, floor_prediction in *.
    destruct b; now rewrite !length_map. }
  unfold envelope_constraints.
  destruct Hft as [->|[->| ->]]; simpl.
  - rewrite app_nil_r. destruct w, o. simpl in *. now subst.
  - now rewrite (broadcast_same_length Ge _ _ Hlen).
  - now rewrite (broadcast_same_length Le _ _ Hlen).
Qed.

Lemma fit_type_step_witness :
  let prediction :=
    [Add (Mul (Var 0) (Num 0)) (Var 1); Add (Mul (Var 0) (Num 1)) (Var 1)] in
  let o := mk_Opti [mk_var_decl 0 1 None None 0; mk_var_decl 0 1 None None 1]
             2 []
             (Some (sum1_sym (map Pow2 (zip_with Sub prediction
                                          (map Num [1; 3]))))) in
  build_problem linear_model (XSeq [0; 1]) [1; 3] guesses_mb None "L2"
    "upper bound" None false world0
  = (mk_world
       (Some (mk_Opti (variables o) (next_index o)
                (constraints o
                 ++ envelope_constraints "upper bound" prediction [1; 3])
                (objective o)))
       1 0, inr (param_symbols guesses_mb 0 [])).
Proof.
  cbv zeta.
  destruct (fit_type_step_appends_constraints_only linear_model
              (XSeq [0; 1]) [1; 3] guesses_mb None "L2" "upper bound" None
              false
              [Add (Mul (Var 0) (Num 0)) (Var 1);
               Add (Mul (Var 0) (Num 1)) (Var 1)]
              (mk_world
                 (Some (mk_Opti
                          [mk_var_decl 0 1 None None 0;
                           mk_var_decl 0 1 None None 1] 2 []
                          (Some (sum1_sym
                                   (map Pow2
                                      (zip_with Sub
                                         [Add (Mul (Var 0) (Num 0)) (Var 1);
                                          Add (Mul (Var 0) (Num 1)) (Var 1)]
                                         (map Num [1; 3])))))))
                 1 0)
              (param_symbols guesses_mb 0 [])
              [Add (Mul (Var 0) (Num 0)) (Var 1);
               Add (Mul (Var 0) (Num 1)) (Var 1)])
    as [_ [o [Ho Hb]]].
  - right; left; reflexivity.
  - reflexivity.
  - reflexivity.
  - vm_compute. reflexivity.
  - simpl in Ho. inversion Ho. subst o. exact Hb.
Defined.

(** C5.  The [fit_type] step is meant to add exactly
    [prediction_i >= y_data_i] for "upper bound" (the comment of line 352
    and the docstring: the model stays above the data), and the floor of
    line 325 is there for the logarithm only.  At [y_data = [1e-301]] in
    logspace with "upper bound" the code registers the constraint on the
    floored prediction instead: it differs from [prediction >= y_data], and
    at [m = b = 0] it holds although the prediction 0 lies below the data. *)
Lemma logspace_fit_type_constrains_floored_prediction :
  let y := [1 # 10 ^ 301] in
  let run :=
    build_problem linear_model (XSeq [1]) y guesses_mb None "L2"
      "upper bound" None true world0 in
  let prediction := [Add (Mul (Var 0) (Num 1)) (Var 1)] in
  let rho := fun _ : nat => 0 in
  linear_model (XSeq [1]) (param_symbols guesses_mb 0 []) = RArray prediction
  /\ option_map constraints (opti (fst run))
     = Some (zip_with Ge (floor_prediction prediction) (map Num y))
  /\ option_map constraints (opti (fst run))
     <> Some (zip_with Ge prediction (map Num y))
  /\ forallb (holds (fun q => q) rho)
       (zip_with Ge (floor_prediction prediction) (map Num y)) = true
  /\ forallb (holds (fun q => q) rho)
       (zip_with Ge prediction (map Num y)) = false.
Proof.
  cbv zeta. split; [vm_compute; reflexivity|].
  split; [vm_compute; reflexivity|].
  split; [intros H; vm_compute in H; discriminate|].
  split; vm_compute; reflexivity.
Qed.

(** ** Extracting the solved parameters *)

Section Extraction.

Variable solution : Type.
Variable solve : Opti -> option solution.
Variable sol_value : solution -> sexpr -> option Q.

Local Notation "'fit'" := (fit_model solution solve sol_value).

Lemma extract_parameters_get sol params names acc name :
  dict_get name (extract_parameters solution sol_value sol params names acc)
  = if existsb (String.eqb name) names
    then Some (solved_value solution sol_value sol params name)
    else dict_get name acc.
Proof.
  revert acc. induction names as [|k names IH]; intros acc; simpl;
    [reflexivity|].
  rewrite IH, dict_get_set.
  destruct (String.eqb name k) eqn:E; simpl.
  - apply String.eqb_eq in E. subst k.
    destruct (existsb (String.eqb name) names); reflexivity.
  - reflexivity.
Qed.

(** C7.  When the problem was built and the solve succeeds, [fit_model]
    returns a [FittedModel]; each parameter whose value the solution yields
    carries that value, and each parameter whose extraction fails carries NaN
    instead of aborting the fit. *)
Theorem failed_extraction_degrades_to_NaN
  mdl x y pg pb nt ft wts b w o params sol :
  build_problem mdl x y pg pb nt ft wts b world0 = (w, inr params) ->
  opti w = Some o ->
  solve o = Some sol ->
  exists fm,
    fit mdl x y pg pb nt ft wts b world0
    = (mk_world (Some o) (model_evals w) (S (solve_calls w)), inr fm)
    /\ (forall name v,
          dict_get name params = Some v ->
          dict_get name (parameters fm)
          = Some (match sol_value sol v with
                  | Some q => Finite q
                  | None => NaN
                  end))
    /\ (forall name,
          dict_get name params = None -> dict_get name (parameters fm) = None).
Proof.
  intros Hb Ho Hs. unfold fit_model.
  rewrite (bind_inr _ _ _ _ _ Hb).
  unfold bind, Opti_solve, ret. rewrite Ho, Hs.
  eexists. split; [reflexivity|]. simpl. split.
  - intros name v Hg. rewrite extract_parameters_get.
    assert (Hin : existsb (String.eqb name) (keys params) = true).
    { apply existsb_exists. exists name. split; [|apply String.eqb_refl].
      apply dict_get_in_keys. congruence. }
    rewrite Hin. unfold solved_value. now rewrite Hg.
  - intros name Hg. rewrite extract_parameters_get.
    destruct (existsb (String.eqb name) (keys params)) eqn:Hin; [|reflexivity].
    apply existsb_exists in Hin. destruct Hin as [k [Hk Heq]].
    apply String.eqb_eq in Heq. subst k.
    apply dict_get_in_keys in Hk. congruence.
Qed.

End Extraction.

Lemma failed_extraction_witness :
  let o :=
    mk_Opti [mk_var_decl 0 1 None None 0; mk_var_decl 0 1 None None 1] 2 []
      (Some (sum1_sym
               (map Pow2
                  (zip_with Sub
                     [Add (Mul (Var 0) (Num 0)) (Var 1);
                      Add (Mul (Var 0) (Num 1)) (Var 1)]
                     (map Num [1; 3]))))) in
  mock_solve o = Some o
  /\ mock_value [1%nat] o (Var 0) = Some 0
  /\ mock_value [1%nat] o (Var 1) = None
  /\ exists fm,
       fit_model Opti mock_solve (mock_value [1%nat]) linear_model
         (XSeq [0; 1]) [1; 3] guesses_mb None "L2" "best" None false world0
       = (mk_world (Some o) 1 1, inr fm)
       /\ dict_get "m" (parameters fm) = Some (Finite 0)
       /\ dict_get "b" (parameters fm) = Some NaN.
Proof.
  cbv zeta. split; [reflexivity|]. split; [reflexivity|].
  split; [reflexivity|].
  edestruct (failed_extraction_degrades_to_NaN Opti mock_solve
               (mock_value [1%nat]) linear_model (XSeq [0; 1]) [1; 3]
               guesses_mb None "L2" "best" None false)
    as [fm [Hrun [Hval _]]].
  - vm_compute. reflexivity.
  - reflexivity.
  - reflexivity.
  - exists fm. split; [exact Hrun|]. split.
    + exact (Hval "m" (Var 0) eq_refl).
    + exact (Hval "b" (Var 1) eq_refl).
Defined.

(** ** The input checks, seen from the caller *)

Lemma relevant_inputs_supplied x y wts :
  series_names_fresh x ->
  relevant_inputs x y (handle_weighting (length y) wts)
  = supplied_series x y wts.
Proof.
  destruct x as [[|a v]|d]; simpl; intros H.
  - congruence.
  - reflexivity.
  - destruct H as (Hnd & Hy & Hw).
    unfold relevant_inputs, supplied_series.
    rewrite dict_update_fresh; [reflexivity | exact Hnd |].
    intros k Hk [H|[H|[]]]; simpl in H; subst k; tauto.
Qed.

Lemma validate_after_early_checks x y pg pb wts b :
  check_parameter_bounds (bounds_or_empty pb) pg = ok ->
  check_logspace b y = ok ->
  validate x y pg pb wts b
  = check_lengths (relevant_inputs x y (handle_weighting (length y) wts))
      (length y).
Proof.
  unfold validate, and_then. cbv zeta. intros -> ->. reflexivity.
Qed.

Lemma all_positive_false y :
  all_positive y = false <-> exists v, In v y /\ v <= 0.
Proof.
  unfold all_positive. induction y as [|a y IH]; simpl.
  - split; [discriminate | intros [v [[] _]]].
  - rewrite andb_false_iff, IH, negb_false_iff, Qle_bool_iff. split.
    + intros [H|[v [Hin Hv]]]; [exists a; auto | exists v; auto].
    + intros [v [[->|Hin] Hv]]; [left; exact Hv | right; eauto].
Qed.

Section InputChecks.

Variable solution : Type.
Variable solve : Opti -> option solution.
Variable sol_value : solution -> sexpr -> option Q.

Local Notation "'fit'" := (fit_model solution solve sol_value).

(** C8, as the code has it.  Once the bounds and positivity checks have
    passed, and with the series stored under distinct names, [fit_model]
    raises the series-length error exactly when some supplied series
    ([y_data], the weights, a series of [x_data]) has a length other than
    that of [y_data]; the error names such a series with its length, and is
    raised before any decision variable, model evaluation or solve. *)
Theorem series_length_error_iff_mismatch mdl x y pg pb nt ft wts b :
  check_parameter_bounds (bounds_or_empty pb) pg = ok ->
  check_logspace b y = ok ->
  series_names_fresh x ->
  ((exists key len w,
      fit mdl x y pg pb nt ft wts b world0
      = (w, inl (ValueError_series key len (length y))))
   <-> (exists key v,
          In (key, v) (supplied_series x y wts) /\ length v <> length y))
  /\ (forall key len n w,
        fit mdl x y pg pb nt ft wts b world0
        = (w, inl (ValueError_series key len n)) ->
        w = world0 /\ n = length y /\ len <> n
        /\ exists v, In (key, v) (supplied_series x y wts) /\ length v = len).
Proof.
  intros Hb Hlog Hx.
  pose proof (validate_after_early_checks x y pg pb wts b Hb Hlog) as Hval.
  rewrite (relevant_inputs_supplied x y wts Hx) in Hval.
  assert (Hsnd : forall key len n w,
    fit mdl x y pg pb nt ft wts b world0
    = (w, inl (ValueError_series key len n)) ->
    w = world0 /\ n = length y /\ len <> n
    /\ exists v, In (key, v) (supplied_series x y wts) /\ length v = len).
  { intros key len n w Hrun.
    destruct (fit_model_input_error _ _ _ _ _ _ _ _ _ _ _ _ _ _ Hrun eq_refl)
      as [Hv ->].
    rewrite Hval in Hv.
    destruct (check_lengths_error _ _ _ Hv) as (k & v & Hin & Hne & He).
    inversion He; subst. eauto 8. }
  split; [split|exact Hsnd].
  - intros (key & len & w & Hrun).
    destruct (Hsnd _ _ _ _ Hrun) as (_ & _ & Hne & v & Hin & Hl).
    exists key, v. split; [exact Hin|]. congruence.
  - intros (key & v & Hin & Hne).
    destruct (check_lengths (supplied_series x y wts) (length y))
      as [e|[]] eqn:Hc.
    + destruct (check_lengths_error _ _ _ Hc) as (k & v' & _ & _ & ->).
      exists k, (length v'), world0.
      apply fit_model_invalid. now rewrite Hval.
    + exfalso. apply Hne.
      apply (proj1 (check_lengths_ok _ _) Hc key v Hin).
Qed.

(** C9, as the code has it.  In logspace, once the bounds check has passed,
    [fit_model] raises the positivity error exactly when some entry of
    [y_data] is not positive, and raises it before any decision variable,
    model evaluation or solve; outside logspace it never raises it, whatever
    the signs in [y_data]. *)
Theorem logspace_error_iff_nonpositive_data mdl x y pg pb nt ft wts :
  check_parameter_bounds (bounds_or_empty pb) pg = ok ->
  ((exists w,
      fit mdl x y pg pb nt ft wts true world0 = (w, inl ValueError_logspace))
   <-> (exists v, In v y /\ v <= 0))
  /\ (forall w,
        fit mdl x y pg pb nt ft wts true world0 = (w, inl ValueError_logspace)
        -> w = world0)
  /\ (forall w r,
        fit mdl x y pg pb nt ft wts false world0 = (w, r) ->
        r <> inl ValueError_logspace).
Proof.
  intros Hb. split; [split|split].
  - intros [w Hrun].
    destruct (fit_model_input_error _ _ _ _ _ _ _ _ _ _ _ _ _ _ Hrun eq_refl)
      as [Hv _].
    apply all_positive_false.
    destruct (all_positive y) eqn:Hp; [exfalso|reflexivity].
    rewrite validate_after_early_checks in Hv;
      [|exact Hb | unfold check_logspace; now rewrite Hp].
    destruct (check_lengths_error _ _ _ Hv) as (? & ? & _ & _ & ?).
    discriminate.
  - intros Hex. apply all_positive_false in Hex. exists world0.
    apply fit_model_invalid. unfold validate, and_then. cbv zeta.
    rewrite Hb. unfold check_logspace. now rewrite Hex.
  - intros w Hrun.
    now destruct (fit_model_input_error _ _ _ _ _ _ _ _ _ _ _ _ _ _
                    Hrun eq_refl).
  - intros w r Hrun ->.
    destruct (fit_model_input_error _ _ _ _ _ _ _ _ _ _ _ _ _ _ Hrun eq_refl)
      as [Hv _].
    unfold validate, and_then in Hv. cbv zeta in Hv.
    destruct (check_parameter_bounds _ pg) eqn:E1.
    + inversion Hv. subst.
      destruct (check_parameter_bounds_error _ _ _ E1) as [[k H]|H];
        discriminate.
    + simpl in Hv.
      destruct (check_lengths_error _ _ _ Hv) as (? & ? & _ & _ & ?).
      discriminate.
Qed.

End InputChecks.

Lemma series_length_error_witness :
  check_parameter_bounds (bounds_or_empty None) guesses_mb = ok
  /\ check_logspace false [1; 3] = ok
  /\ series_names_fresh (XSeq [0; 1; 2])
  /\ ((exists key len w,
         fit_model Opti mock_solve (mock_value []) linear_model
           (XSeq [0; 1; 2]) [1; 3] guesses_mb None "L2" "best" None false
           world0
         = (w, inl (ValueError_series key len (length [1; 3]))))
      <-> (exists key v,
             In (key, v) (supplied_series (XSeq [0; 1; 2]) [1; 3] None)
             /\ length v <> length [1; 3])).
Proof.
  split; [reflexivity|]. split; [reflexivity|].
  split; [discriminate|].
  apply (series_length_error_iff_mismatch Opti mock_solve (mock_value [])
           linear_model (XSeq [0; 1; 2]) [1; 3] guesses_mb None "L2" "best"
           None false);
    [reflexivity | reflexivity | discriminate].
Defined.

(** C8, as stated, fails: here [x_data] has three entries and [y_data] two,
    yet the error raised is the positivity error of the earlier check, which
    names no series. *)
Lemma length_mismatch_hidden_by_earlier_check :
  let run :=
    outcome (fit_model Opti mock_solve (mock_value []) linear_model
               (XSeq [0; 1; 2]) [1; 0] guesses_mb None "L2" "best" None true
               world0) in
  length [0; 1; 2] <> length [1; 0]
  /\ snd run = inl ValueError_logspace
  /\ forall key len n, snd run <> inl (ValueError_series key len n).
Proof.
  cbv zeta. split; [discriminate|]. split; [vm_compute; reflexivity|].
  intros key len n H. vm_compute in H. discriminate.
Qed.

(** Two further leaks of the length check.  A series of [x_data] called
    "weights" takes the place of the weights in [relevant_inputs], and an
    empty bare [x_data] never enters it: in both runs a supplied series has a
    length other than that of [y_data] and the run is not stopped by any
    check. *)
Lemma length_mismatch_unchecked :
  validate (XNamed [("weights", [5; 6])]) [1; 3] guesses_mb None
    (Some [1; 1; 1]) false = inr tt
  /\ validate (XSeq []) [1; 3] guesses_mb None None false = inr tt.
Proof. split; reflexivity. Qed.

Lemma logspace_error_witness :
  check_parameter_bounds (bounds_or_empty None) guesses_mb = ok
  /\ ((exists w,
         fit_model Opti mock_solve (mock_value []) linear_model
           (XSeq [0; 1]) [1; 0] guesses_mb None "L2" "best" None true world0
         = (w, inl ValueError_logspace))
      <-> (exists v, In v [1; 0] /\ v <= 0)).
Proof.
  split; [reflexivity|].
  apply (logspace_error_iff_nonpositive_data Opti mock_solve (mock_value [])
           linear_model (XSeq [0; 1]) [1; 0] guesses_mb None "L2" "best" None).
  reflexivity.
Defined.

(** C9, as stated, fails both ways.  In the first run every entry of
    [y_data] is positive and a validation error is raised all the same (the
    series-length one); in the second an entry is zero and the error raised
    is that of the earlier bounds check, not the positivity error. *)
Lemma validation_error_not_equivalent_to_nonpositive_data :
  let run1 :=
    outcome (fit_model Opti mock_solve (mock_value []) linear_model
               (XSeq [0; 1]) [1; 3; 5] guesses_mb None "L2" "best" None true
               world0) in
  let run2 :=
    outcome (fit_model Opti mock_solve (mock_value []) linear_model
               (XSeq [0; 1]) [1; 0] guesses_mb (Some [("k", [None; None])])
               "L2" "best" None true world0) in
  all_positive [1; 3; 5] = true
  /\ snd run1 = inl (ValueError_series "x_data" 2 3)
  /\ is_validation_error (ValueError_series "x_data" 2 3) = true
  /\ all_positive [1; 0] = false
  /\ snd run2 = inl (ValueError_bounds_key "k").
Proof.
  cbv zeta. repeat split; vm_compute; reflexivity.
Qed.

(** ** Matching of [fit_type] and [residual_norm_type] *)

Section Matching.

Variable solution : Type.
Variable solve : Opti -> option solution.
Variable sol_value : solution -> sexpr -> option Q.

Local Notation "'fit'" := (fit_model solution solve sol_value).

(** C10.  A [fit_type] that differs from "best", "upper bound" or
    "lower bound" only in letter case makes [fit_model] raise the
    unknown-fit_type error as soon as the formulation has gone through, and
    in any case never lets it solve or return a model; a
    [residual_norm_type] that is a case variant of "L1", "L2" or "Linf" is
    taken like its lowercase spelling and never raises the unknown-norm
    error. *)
Theorem fit_type_case_sensitive_norm_case_insensitive
  mdl x y pg pb nt ft wts b :
  In (lower ft) ["best"; "upper bound"; "lower bound"] ->
  ~ In ft ["best"; "upper bound"; "lower bound"] ->
  In (lower nt) ["l1"; "l2"; "linf"] ->
  (forall w py,
     formulate mdl x y pg pb nt wts b world0 = (w, inr py) ->
     fit mdl x y pg pb nt ft wts b world0 = (w, inl ValueError_fit_type))
  /\ (forall w r,
        fit mdl x y pg pb nt ft wts b world0 = (w, r) ->
        solve_calls w = 0%nat /\ exists e, r = inl e)
  /\ (forall ft' w r,
        fit mdl x y pg pb nt ft' wts b world0 = (w, r) ->
        r <> inl ValueError_residual_type)
  /\ (forall error w,
        minimize_norm nt error y w = minimize_norm (lower nt) error y w).
Proof.
  intros Hlow Hft Hnt.
  assert (Hbest : String.eqb ft "best" = false).
  { apply String.eqb_neq. intros ->. apply Hft. simpl. auto. }
  assert (Hupper : String.eqb ft "upper bound" = false).
  { apply String.eqb_neq. intros ->. apply Hft. simpl. auto. }
  assert (Hlower : String.eqb ft "lower bound" = false).
  { apply String.eqb_neq. intros ->. apply Hft. simpl. auto. }
  assert (H1 : forall w py,
    formulate mdl x y pg pb nt wts b world0 = (w, inr py) ->
    fit mdl x y pg pb nt ft wts b world0 = (w, inl ValueError_fit_type)).
  { intros w py Hf.
    pose proof (formulate_inr_valid _ _ _ _ _ _ _ _ _ _ Hf) as Hv.
    pose proof (formulate_valid_outcomes _ _ _ _ _ _ _ _ _ _ Hv Hf) as Hout.
    simpl in Hout. destruct Hout as ((_ & _ & o & Ho & _) & _).
    rewrite fit_model_unfold, Hf.
    rewrite (apply_fit_type_cases ft _ y w o Ho).
    now rewrite Hbest, Hupper, Hlower. }
  split; [exact H1|]. split; [|split].
  - intros w r Hrun.
    destruct (formulate mdl x y pg pb nt wts b world0) as [w1 [e|py]] eqn:Hf.
    + rewrite fit_model_unfold, Hf in Hrun. inversion Hrun; subst w r.
      split; [|eauto].
      destruct (validate x y pg pb wts b) as [e'|[]] eqn:Hv.
      * rewrite (formulate_invalid mdl x y pg pb nt wts b e' Hv) in Hf.
        inversion Hf. reflexivity.
      * pose proof (formulate_valid_outcomes _ _ _ _ _ _ _ _ _ _ Hv Hf)
          as Hout.
        simpl in Hout. unfold nothing_assembled, formulated in Hout.
        destruct e; tauto.
    + pose proof (formulate_inr_valid _ _ _ _ _ _ _ _ _ _ Hf) as Hv.
      pose proof (formulate_valid_outcomes _ _ _ _ _ _ _ _ _ _ Hv Hf) as Hout.
      simpl in Hout. destruct Hout as ((Hsc & _) & _).
      rewrite (H1 _ _ eq_refl) in Hrun. inversion Hrun; subst w r.
      split; [exact Hsc | eauto].
  - intros ft' w r Hrun ->.
    destruct (validate x y pg pb wts b) as [e'|[]] eqn:Hv.
    + rewrite (fit_model_invalid _ _ _ mdl x y pg pb nt ft' wts b e' Hv)
        in Hrun.
      inversion Hrun; subst. apply validate_error in Hv. exact Hv.
    + pose proof (fit_model_valid_outcomes _ _ _ _ _ _ _ _ _ _ _ _ _ _
                    Hv Hrun) as (_ & N1 & N2 & N3).
      simpl in Hnt. destruct Hnt as [H|[H|[H|[]]]]; congruence.
  - intros error w. unfold minimize_norm.
    simpl in Hnt. destruct Hnt as [H|[H|[H|[]]]]; rewrite <- H; reflexivity.
Qed.

End Matching.

Lemma fit_type_case_sensitive_witness :
  In (lower "Best") ["best"; "upper bound"; "lower bound"]
  /\ ~ In "Best" ["best"; "upper bound"; "lower bound"]
  /\ In (lower "LINF") ["l1"; "l2"; "linf"]
  /\ (exists w py,
        formulate linear_model (XSeq [0; 1]) [1; 3] guesses_mb None "LINF"
          None false world0 = (w, inr py)
        /\ fit_model Opti mock_solve (mock_value []) linear_model
             (XSeq [0; 1]) [1; 3] guesses_mb None "LINF" "Best" None false
             world0
           = (w, inl ValueError_fit_type)).
Proof.
  assert (H1 : In (lower "Best") ["best"; "upper bound"; "lower bound"])
    by (left; reflexivity).
  assert (H2 : ~ In "Best" ["best"; "upper bound"; "lower bound"])
    by (intros [H|[H|[H|[]]]]; discriminate).
  assert (H3 : In (lower "LINF") ["l1"; "l2"; "linf"])
    by (right; right; left; reflexivity).
  split; [exact H1|]. split; [exact H2|]. split; [exact H3|].
  destruct (formulate linear_model (XSeq [0; 1]) [1; 3] guesses_mb None "LINF"
              None false world0) as [w [e|py]] eqn:Hf.
  - vm_compute in Hf. discriminate.
  - exists w, py. split; [reflexivity|].
    exact (proj1 (fit_type_case_sensitive_norm_case_insensitive Opti mock_solve
                    (mock_value []) linear_model (XSeq [0; 1]) [1; 3]
                    guesses_mb None "LINF" "Best" None false H1 H2 H3)
             w py Hf).
Defined.

(** ** Further concrete runs *)

(** A model that hands back a string: the subtraction of line 323 raises. *)
Example text_model_run :
  outcome (fit_model Opti mock_solve (mock_value []) text_model
             (XSeq [0; 1; 2]) [1; 3; 5] guesses_mb None "L2" "best" None false
             world0)
  = (mk_world
       (Some (mk_Opti
                [mk_var_decl 0 1 None None 0; mk_var_decl 0 1 None None 1]
                2 [] None))
       1 0, inl TypeError_operand).
Proof. vm_compute. reflexivity. Qed.

(** The run of [test_fitted_model.py], on three data points: solved by the
    stand-in, both parameters are reported. *)
Example linear_fit_run :
  snd (outcome (fit_model Opti mock_solve (mock_value []) linear_model
                  (XSeq [0; 1; 2]) [1; 3; 5] guesses_mb None "L2" "best" None
                  false world0))
  = inr [("m", Finite 0); ("b", Finite 0)].
Proof. vm_compute. reflexivity. Qed.

(** An L1 fit with bounds on [m]: one auxiliary variable per data point and
    two constraints per data point. *)
Example l1_bounded_run :
  let w :=
    fst (build_problem linear_model (XSeq [0; 1; 2]) [1; 3; 5] guesses_mb
           (Some [("m", [Some 0; None])]) "l1" "lower bound" None false
           world0) in
  option_map (fun o => (length (variables o), length (constraints o),
                        map lower_bound (variables o)))
    (opti w)
  = Some (3%nat, 9%nat, [Some 0; None; None]).
Proof. vm_compute. reflexivity. Qed.

(** * Further properties of [fit_model] and [FittedModel] *)

(** ** The bounds check *)

Lemma check_parameter_bounds_refuses pb pg :
  (exists e, check_parameter_bounds pb pg = inl e)
  <-> existsb (refused_bound pg) pb = true.
Proof.
  induction pb as [|[k v] pb IH]; simpl.
  - split; [intros [e H]; discriminate | discriminate].
  - unfold refused_bound at 1. simpl.
    destruct (dict_mem k pg); simpl.
    + destruct (Nat.eqb (length v) 2); simpl; [exact IH|].
      split; [reflexivity | eauto].
    + split; [reflexivity | eauto].
Qed.

Lemma check_parameter_bounds_key pb pg k :
  check_parameter_bounds pb pg = inl (ValueError_bounds_key k) ->
  In k (keys pb) /\ dict_mem k pg = false.
Proof.
  induction pb as [|[k0 v] pb IH]; simpl; [discriminate|].
  destruct (dict_mem k0 pg) eqn:Em; simpl.
  - destruct (Nat.eqb (length v) 2); simpl; [|discriminate].
    intros H. destruct (IH H). auto.
  - intros [= <-]. auto.
Qed.

Section MoreRuns.

Variable solution : Type.
Variable solve : Opti -> option solution.
Variable sol_value : solution -> sexpr -> option Q.

Local Notation "'fit'" := (fit_model solution solve sol_value).

(** X1.  The bounds check comes first and decides alone: whatever the other
    arguments, [fit_model] raises a bounds error exactly when some entry of
    [parameter_bounds] has a key that is not a parameter or a value that is
    not a pair; nothing has been created by then, and a reported key is a key
    of [parameter_bounds] that [parameter_guesses] lacks. *)
Theorem bounds_error_iff_refused_entry mdl x y pg pb nt ft wts b :
  ((exists w e,
      fit mdl x y pg pb nt ft wts b world0 = (w, inl e)
      /\ is_bounds_error e = true)
   <-> existsb (refused_bound pg) (bounds_or_empty pb) = true)
  /\ (forall w e,
        fit mdl x y pg pb nt ft wts b world0 = (w, inl e) ->
        is_bounds_error e = true ->
        w = world0
        /\ forall k, e = ValueError_bounds_key k ->
             In k (keys (bounds_or_empty pb)) /\ dict_mem k pg = false).
Proof.
  assert (Hsrc : forall w e,
    fit mdl x y pg pb nt ft wts b world0 = (w, inl e) ->
    is_bounds_error e = true ->
    check_parameter_bounds (bounds_or_empty pb) pg = inl e /\ w = world0).
  { intros w e Hrun He.
    assert (Hi : is_input_error e = true)
      by (destruct e; simpl in *; congruence).
    destruct (fit_model_input_error _ _ _ _ _ _ _ _ _ _ _ _ _ _ Hrun Hi)
      as [Hv ->].
    split; [|reflexivity].
    unfold validate, and_then in Hv. cbv zeta in Hv.
    destruct (check_parameter_bounds _ pg) as [e'|[]] eqn:E1;
      [congruence|].
    exfalso. destruct (check_logspace b y) eqn:E2.
    - inversion Hv. subst. apply check_logspace_error in E2. subst.
      discriminate.
    - destruct (check_lengths_error _ _ _ Hv) as (? & ? & _ & _ & ->).
      discriminate. }
  split; [split|].
  - intros (w & e & Hrun & He).
    apply check_parameter_bounds_refuses. exists e. apply (Hsrc _ _ Hrun He).
  - intros Hex. apply check_parameter_bounds_refuses in Hex.
    destruct Hex as [e He]. exists world0, e. split.
    + apply fit_model_invalid. unfold validate, and_then. cbv zeta.
      now rewrite He.
    + destruct (check_parameter_bounds_error _ _ _ He) as [[k ->]| ->];
        reflexivity.
  - intros w e Hrun He. destruct (Hsrc _ _ Hrun He) as [Hc ->].
    split; [reflexivity|]. intros k ->.
    apply (check_parameter_bounds_key _ _ _ Hc).
Qed.

(** X2.  However a call ends, the model has been evaluated at most once and
    the solver called at most once, and never before the model; a
    [FittedModel] comes only after the one solve, and the only error that can
    follow a solve is the solver's own failure. *)
Theorem at_most_one_model_call_and_one_solve mdl x y pg pb nt ft wts b :
  let run := fit mdl x y pg pb nt ft wts b world0 in
  (model_evals (fst run) <= 1)%nat
  /\ (solve_calls (fst run) <= model_evals (fst run))%nat
  /\ match snd run with
     | inr _ | inl SolveFailure => solve_calls (fst run) = 1%nat
     | inl _ => solve_calls (fst run) = 0%nat
     end.
Proof.
  cbv zeta.
  destruct (fit mdl x y pg pb nt ft wts b world0) as [w r] eqn:Hrun.
  simpl fst. simpl snd.
  destruct (validate x y pg pb wts b) as [e|[]] eqn:Hv.
  - rewrite (fit_model_invalid _ _ _ mdl x y pg pb nt ft wts b e Hv) in Hrun.
    inversion Hrun; subst. simpl. apply validate_error in Hv.
    destruct e; try contradiction; auto.
  - pose proof (fit_model_valid_outcomes _ _ _ _ _ _ _ _ _ _ _ _ _ _
                  Hv Hrun) as H.
    unfold nothing_assembled, formulated in H.
    destruct r as [e|fm].
    + destruct e; try contradiction;
        repeat match goal with
               | H : _ /\ _ |- _ => destruct H
               end; repeat split; lia.
    + destruct H as [-> ->]. repeat split; lia.
Qed.

Lemma fit_model_inr_valid mdl x y pg pb nt ft wts b w fm :
  fit mdl x y pg pb nt ft wts b world0 = (w, inr fm) ->
  validate x y pg pb wts b = inr tt.
Proof.
  intros H. destruct (validate x y pg pb wts b) as [e|[]] eqn:Hv;
    [|reflexivity].
  rewrite (fit_model_invalid _ _ _ mdl x y pg pb nt ft wts b e Hv) in H.
  discriminate.
Qed.

(** X3.  A [FittedModel] is returned exactly when the problem could be built
    and the solver succeeds on it; when the problem is built and the solver
    fails, its failure is what the caller gets, after that one solve. *)
Theorem returns_model_iff_built_and_solved mdl x y pg pb nt ft wts b :
  ((exists w fm, fit mdl x y pg pb nt ft wts b world0 = (w, inr fm))
   <-> (exists w params o sol,
          build_problem mdl x y pg pb nt ft wts b world0 = (w, inr params)
          /\ opti w = Some o /\ solve o = Some sol))
  /\ (forall w params o,
        build_problem mdl x y pg pb nt ft wts b world0 = (w, inr params) ->
        opti w = Some o -> solve o = None ->
        fit mdl x y pg pb nt ft wts b world0
        = (mk_world (Some o) (model_evals w) (S (solve_calls w)),
           inl SolveFailure)).
Proof.
  split; [split|].
  - intros (w & fm & Hrun).
    pose proof (fit_model_inr_valid _ _ _ _ _ _ _ _ _ _ _ Hrun) as Hv.
    unfold fit_model in Hrun. unfold bind at 1 in Hrun.
    destruct (build_problem mdl x y pg pb nt ft wts b world0)
      as [w1 [e|params]] eqn:Hb; [discriminate|].
    assert (Ho : exists o, opti w1 = Some o).
    { rewrite build_problem_unfold in Hb.
      destruct (formulate mdl x y pg pb nt wts b world0) as [w0 [e|py]] eqn:Hf;
        [discriminate|].
      pose proof (formulate_valid_outcomes _ _ _ _ _ _ _ _ _ _ Hv Hf) as Hout.
      simpl in Hout. destruct Hout as ((_ & _ & o & Ho & _) & _).
      rewrite (apply_fit_type_cases ft _ y w0 o Ho) in Hb.
      destruct (String.eqb ft "best");
        [inversion Hb; subst; eauto|].
      destruct (String.eqb ft "upper bound").
      { destruct (broadcast Ge _ _); inversion Hb; subst; simpl; eauto. }
      destruct (String.eqb ft "lower bound").
      { destruct (broadcast Le _ _); inversion Hb; subst; simpl; eauto. }
      discriminate. }
    destruct Ho as [o Ho].
    unfold bind, Opti_solve, ret in Hrun. rewrite Ho in Hrun.
    destruct (solve o) as [sol|] eqn:Hs; [|discriminate].
    exists w1, params, o, sol. auto.
  - intros (w & params & o & sol & Hb & Ho & Hs).
    unfold fit_model. rewrite (bind_inr _ _ _ _ _ Hb).
    unfold bind, Opti_solve, ret. rewrite Ho, Hs. eauto.
  - intros w params o Hb Ho Hs.
    unfold fit_model. rewrite (bind_inr _ _ _ _ _ Hb).
    unfold bind, Opti_solve, ret. now rewrite Ho, Hs.
Qed.

End MoreRuns.

(** ** What the returned model holds *)

Lemma keys_app {V} (a b : dict V) : keys (a ++ b) = keys a ++ keys b.
Proof. unfold keys. apply map_app. Qed.

Lemma param_symbols_fresh pg : forall i acc,
  NoDup (keys acc ++ keys pg) ->
  param_symbols pg i acc = acc ++ symbols_from i pg.
Proof.
  induction pg as [|[name g] pg IH]; intros i acc Hnd; simpl.
  - now rewrite app_nil_r.
  - simpl in Hnd. rewrite dict_set_fresh.
    + rewrite IH.
      * now rewrite <- app_assoc.
      * rewrite keys_app. simpl. now rewrite <- app_assoc.
    + apply NoDup_remove_2 in Hnd. intros Hin. apply Hnd.
      apply in_or_app. auto.
Qed.

Lemma keys_symbols_from pg : forall i, keys (symbols_from i pg) = keys pg.
Proof.
  induction pg as [|[name g] pg IH]; intros i; simpl; [reflexivity|].
  now rewrite IH.
Qed.

Lemma extract_parameters_fresh solution sol_value (sol : solution) params names :
  forall acc,
    NoDup (keys acc ++ names) ->
    extract_parameters solution sol_value sol params names acc
    = acc ++ map (fun n => (n, solved_value solution sol_value sol params n))
               names.
Proof.
  induction names as [|n names IH]; intros acc Hnd; simpl.
  - now rewrite app_nil_r.
  - rewrite dict_set_fresh.
    + rewrite IH.
      * now rewrite <- app_assoc.
      * rewrite keys_app. simpl. now rewrite <- app_assoc.
    + apply NoDup_remove_2 in Hnd. intros Hin. apply Hnd.
      apply in_or_app. auto.
Qed.

Lemma dict_set_in_other {V} (k k' : string) (v v' : V) (d : dict V) :
  k <> k' -> In (k, v) d -> In (k, v) (dict_set k' v' d).
Proof.
  intros Hne. induction d as [|[k0 v0] d IH]; simpl; [tauto|].
  destruct (String.eqb k' k0) eqn:E.
  - apply String.eqb_eq in E. subst k0.
    intros [H|H]; [inversion H; congruence | right; exact H].
  - intros [H|H]; [left; exact H | right; auto].
Qed.

Lemma dict_set_in_same {V} (k : string) (v : V) (d : dict V) :
  In (k, v) (dict_set k v d).
Proof.
  induction d as [|[k0 v0] d IH]; simpl; [auto|].
  destruct (String.eqb k k0) eqn:E.
  - apply String.eqb_eq in E. subst k0. left. reflexivity.
  - right. exact IH.
Qed.

Lemma dict_update_keeps {V} (other : dict V) : forall d k v,
  ~ In k (keys other) -> In (k, v) d -> In (k, v) (dict_update d other).
Proof.
  unfold dict_update.
  induction other as [|[k0 v0] other IH]; intros d k v Hk Hin; simpl;
    [exact Hin|].
  apply IH; [simpl in Hk; tauto|].
  apply dict_set_in_other; [simpl in Hk; intuition congruence | exact Hin].
Qed.

Lemma dict_update_in {V} (other : dict V) : forall d k v,
  NoDup (keys other) -> In (k, v) other -> In (k, v) (dict_update d other).
Proof.
  induction other as [|[k0 v0] other IH]; intros d k v Hnd Hin;
    [destruct Hin|].
  simpl in Hnd. inversion Hnd as [|? ? Hk0 Hnd']; subst.
  destruct Hin as [Heq|Hin].
  - inversion Heq; subst.
    change (In (k, v) (dict_update (dict_set k v d) other)).
    apply dict_update_keeps; [exact Hk0 | apply dict_set_in_same].
  - change (In (k, v) (dict_update (dict_set k0 v0 d) other)).
    apply IH; assumption.
Qed.

Section Returned.

Variable solution : Type.
Variable solve : Opti -> option solution.
Variable sol_value : solution -> sexpr -> option Q.

Local Notation "'fit'" := (fit_model solution solve sol_value).

(** X4.  The [FittedModel] that a call returns holds the model, [x_data] and
    [y_data] of the call, has exactly the parameter names of
    [parameter_guesses], in their order, and reports the names of a named
    [x_data] (none for a bare sequence) and their number (1 for a bare
    sequence) as its inputs. *)
Theorem returned_model_holds_the_inputs mdl x y pg pb nt ft wts b w fm :
  fit mdl x y pg pb nt ft wts b world0 = (w, inr fm) ->
  NoDup (keys pg) ->
  model fm = mdl /\ x_data fm = x /\ y_data fm = y
  /\ keys (parameters fm) = keys pg
  /\ input_names fm = match x with
                      | XNamed d => Some (keys d)
                      | XSeq _ => None
                      end
  /\ input_dimensionality fm = match x with
                               | XNamed d => length d
                               | XSeq _ => 1%nat
                               end.
Proof.
  intros Hrun Hnd.
  pose proof (fit_model_inr_valid _ _ _ _ _ _ _ _ _ _ _ _ _ _ Hrun) as Hv.
  rewrite fit_model_unfold in Hrun.
  destruct (formulate mdl x y pg pb nt wts b world0) as [w1 [e|py]] eqn:Hf;
    [discriminate|].
  pose proof (formulate_valid_outcomes _ _ _ _ _ _ _ _ _ _ Hv Hf) as Hout.
  simpl in Hout. destruct Hout as (_ & _ & Hpy & _).
  destruct (apply_fit_type ft (snd py) y w1) as [w2 [e|[]]]; [discriminate|].
  destruct (Opti_solve solution solve w2) as [w3 [e|sol]]; [discriminate|].
  inversion Hrun; subst w fm. clear Hrun.
  unfold input_dimensionality, input_names. simpl.
  split; [reflexivity|]. split; [reflexivity|]. split; [reflexivity|].
  split.
  - rewrite Hpy, param_symbols_fresh by exact Hnd. simpl.
    rewrite extract_parameters_fresh
      by (simpl; now rewrite keys_symbols_from).
    simpl. unfold keys at 1. rewrite map_map. simpl. rewrite map_id.
    apply keys_symbols_from.
  - destruct x; split; try reflexivity.
    unfold length, keys. now rewrite length_map.
Qed.

(** X5.  In a returned [FittedModel] every series of a named [x_data] has the
    length of [y_data]; a bare [x_data] has that length too, unless it is
    empty. *)
Theorem returned_series_have_data_length mdl x y pg pb nt ft wts b w fm :
  fit mdl x y pg pb nt ft wts b world0 = (w, inr fm) ->
  distinct_names x ->
  match x_data fm with
  | XSeq v => v = [] \/ length v = length (y_data fm)
  | XNamed d => forall k v, In (k, v) d -> length v = length (y_data fm)
  end.
Proof.
  intros Hrun Hx.
  pose proof (fit_model_inr_valid _ _ _ _ _ _ _ _ _ _ _ _ _ _ Hrun) as Hv.
  assert (Hxy : x_data fm = x /\ y_data fm = y).
  { rewrite fit_model_unfold in Hrun.
    destruct (formulate mdl x y pg pb nt wts b world0) as [w1 [e|py]];
      [discriminate|].
    destruct (apply_fit_type ft (snd py) y w1) as [w2 [e|[]]]; [discriminate|].
    destruct (Opti_solve solution solve w2) as [w3 [e|sol]]; [discriminate|].
    inversion Hrun; subst. auto. }
  destruct Hxy as [-> ->].
  unfold validate, and_then in Hv. cbv zeta in Hv.
  destruct (check_parameter_bounds _ pg); [discriminate|].
  destruct (check_logspace b y); [discriminate|].
  pose proof (proj1 (check_lengths_ok _ _) Hv) as Hall.
  destruct x as [[|a v]|d].
  - left. reflexivity.
  - right. apply (Hall "x_data"). simpl. auto.
  - intros k v Hin. apply (Hall k). unfold relevant_inputs.
    apply dict_update_in; assumption.
Qed.

End Returned.

(** ** The weights and the length check *)

Lemma length_handle_weighting n wts :
  length (handle_weighting n wts) = weights_length n wts.
Proof.
  unfold handle_weighting, weights_length, divide, length, ones.
  rewrite length_map. destruct wts; [reflexivity | apply repeat_length].
Qed.

Lemma dict_set_same_shape (k : string) (v : list Q) (d d' : dict (list Q)) :
  Forall2 (fun a a' => fst a = fst a' /\ length (snd a) = length (snd a')) d d' ->
  Forall2 (fun a a' => fst a = fst a' /\ length (snd a) = length (snd a'))
    (dict_set k v d) (dict_set k v d').
Proof.
  induction 1 as [|[k0 v0] [k0' v0'] d d' [Hk Hl] Hrest IH]; simpl.
  - constructor; [auto | constructor].
  - simpl in Hk, Hl. subst k0'.
    destruct (String.eqb k k0); constructor; simpl; auto.
Qed.

Lemma dict_update_same_shape (other d d' : dict (list Q)) :
  Forall2 (fun a a' => fst a = fst a' /\ length (snd a) = length (snd a')) d d' ->
  Forall2 (fun a a' => fst a = fst a' /\ length (snd a) = length (snd a'))
    (dict_update d other) (dict_update d' other).
Proof.
  unfold dict_update. revert d d'.
  induction other as [|[k v] other IH]; intros d d' H; simpl; [exact H|].
  apply IH. apply dict_set_same_shape. exact H.
Qed.

Lemma check_lengths_same_shape (d d' : dict (list Q)) n :
  Forall2 (fun a a' => fst a = fst a' /\ length (snd a) = length (snd a')) d d' ->
  check_lengths d n = check_lengths d' n.
Proof.
  induction 1 as [|[k v] [k' v'] d d' [Hk Hl] Hrest IH]; simpl; [reflexivity|].
  simpl in Hk, Hl. subst k'. rewrite Hl, IH. reflexivity.
Qed.

Lemma check_lengths_weights x y W W' n :
  length W = length W' ->
  check_lengths (relevant_inputs x y W) n
  = check_lengths (relevant_inputs x y W') n.
Proof.
  intros Hl. apply check_lengths_same_shape.
  assert (H0 : Forall2
                 (fun a a' : string * list Q =>
                    fst a = fst a' /\ length (snd a) = length (snd a'))
                 [("y_data", y); ("weights", W)]
                 [("y_data", y); ("weights", W')]).
  { repeat constructor; simpl; auto. }
  unfold relevant_inputs. destruct x as [[|a v]|d].
  - exact H0.
  - apply dict_update_same_shape. exact H0.
  - apply dict_update_same_shape. exact H0.
Qed.

Lemma dict_set_below {V} (k : string) (v : V) (a b : string * V) (r : dict V) :
  k <> fst a -> k <> fst b ->
  dict_set k v (a :: b :: r) = a :: b :: dict_set k v r.
Proof.
  intros Ha Hb. destruct a as [ka va], b as [kb vb]. simpl in *.
  apply String.eqb_neq in Ha, Hb. now rewrite Ha, Hb.
Qed.

Lemma dict_update_below {V} (other : dict V) : forall (a b : string * V) r,
  ~ In (fst a) (keys other) -> ~ In (fst b) (keys other) ->
  dict_update (a :: b :: r) other = a :: b :: dict_update r other.
Proof.
  unfold dict_update.
  induction other as [|[k v] other IH]; intros a b r Ha Hb; [reflexivity|].
  simpl in Ha, Hb. cbn [fold_left fst snd].
  rewrite dict_set_below by (intuition congruence).
  apply IH; tauto.
Qed.

Section Weights.

Variable solution : Type.
Variable solve : Opti -> option solution.
Variable sol_value : solution -> sexpr -> option Q.

Local Notation "'fit'" := (fit_model solution solve sol_value).

(** X6.  The weights reach nothing but the length check: two calls that
    differ only in their weights, with as many weights in the one as in the
    other (no weights counting as one per data point), end in the same state
    with the same result, whatever the norm and the fit type. *)
Theorem weights_matter_only_by_their_number mdl x y pg pb nt ft wts wts' b :
  weights_length (length y) wts = weights_length (length y) wts' ->
  fit mdl x y pg pb nt ft wts b world0 = fit mdl x y pg pb nt ft wts' b world0.
Proof.
  intros Hl.
  assert (Hc : check_lengths
                 (relevant_inputs x y (handle_weighting (length y) wts))
                 (length y)
               = check_lengths
                   (relevant_inputs x y (handle_weighting (length y) wts'))
                   (length y)).
  { apply check_lengths_weights. now rewrite !length_handle_weighting. }
  unfold fit_model, build_problem, formulate. cbv zeta. rewrite Hc.
  reflexivity.
Qed.

(** X7.  Once the bounds and positivity checks have passed, a weight vector
    whose length is not that of [y_data] is reported under the name
    "weights", with its length, before any series of [x_data] is looked at
    and before anything is created (for a named [x_data] without series
    called "y_data" or "weights"). *)
Theorem wrong_number_of_weights_is_reported_first
  mdl x y pg pb nt ft weights b :
  check_parameter_bounds (bounds_or_empty pb) pg = ok ->
  check_logspace b y = ok ->
  match x with
  | XNamed d => ~ In "y_data" (keys d) /\ ~ In "weights" (keys d)
  | XSeq _ => True
  end ->
  length weights <> length y ->
  fit mdl x y pg pb nt ft (Some weights) b world0
  = (world0, inl (ValueError_series "weights" (length weights) (length y))).
Proof.
  intros Hb Hlog Hx Hne.
  apply fit_model_invalid.
  rewrite (validate_after_early_checks x y pg pb (Some weights) b Hb Hlog).
  assert (Hw : length (handle_weighting (length y) (Some weights))
               = length weights) by apply length_handle_weighting.
  assert (Hshape : exists rest,
    relevant_inputs x y (handle_weighting (length y) (Some weights))
    = ("y_data", y)
      :: ("weights", handle_weighting (length y) (Some weights)) :: rest).
  { unfold relevant_inputs. destruct x as [[|a v]|d].
    - eauto.
    - eexists. reflexivity.
    - destruct Hx as [Hy Hwt]. eexists.
      apply dict_update_below; simpl; assumption. }
  destruct Hshape as [rest ->]. simpl.
  rewrite Nat.eqb_refl. simpl. rewrite Hw.
  apply Nat.eqb_neq in Hne. now rewrite Hne.
Qed.

End Weights.

(** ** The declared parameters *)

Lemma bound_item_value pb pg name v :
  check_parameter_bounds pb pg = ok ->
  dict_get name pb = Some v ->
  (exists lb ub, v = [lb; ub])
  /\ bound_item pb name 0 = inr (nth 0 v None)
  /\ bound_item pb name 1 = inr (nth 1 v None).
Proof.
  intros H Hg.
  assert (Hm : dict_mem name pb = true) by (unfold dict_mem; now rewrite Hg).
  destruct (dict_mem_get _ _ Hm) as [v' [Hg' Hin]].
  rewrite Hg in Hg'. inversion Hg'; subst v'.
  apply check_parameter_bounds_ok in H. rewrite Forall_forall in H.
  destruct (H _ Hin) as [_ Hl]. simpl in Hl. unfold length in Hl.
  destruct v as [|lb [|ub [|? ?]]]; try discriminate.
  unfold bound_item. rewrite Hg. simpl. eauto.
Qed.

Lemma declare_parameters_decls pb pg0 :
  check_parameter_bounds pb pg0 = ok ->
  forall pg params w o, opti w = Some o ->
    declare_parameters pg pb params w
    = (mk_world
         (Some (mk_Opti (variables o ++ parameter_decls pb (next_index o) pg)
                  (next_index o + length pg) (constraints o) (objective o)))
         (model_evals w) (solve_calls w),
       inr (param_symbols pg (next_index o) params)).
Proof.
  intros Hpb. induction pg as [|[name g] pg IH]; intros params w o Ho.
  - simpl. unfold ret. rewrite app_nil_r, Nat.add_0_r.
    destruct w, o. simpl in *. now subst.
  - simpl declare_parameters.
    assert (Hv :
      (if dict_mem name pb
       then lb <- lift (bound_item pb name 0) ;;
            ub <- lift (bound_item pb name 1) ;;
            Opti_variable_scalar g lb ub
       else Opti_variable_scalar g None None) w
      = (mk_world
           (Some (mk_Opti
                    (variables o ++ [parameter_decl pb (next_index o) name g])
                    (next_index o + 1) (constraints o) (objective o)))
           (model_evals w) (solve_calls w),
         inr (Var (next_index o)))).
    { unfold parameter_decl, dict_mem.
      destruct (dict_get name pb) as [v|] eqn:Eg.
      - destruct (bound_item_value pb pg0 name v Hpb Eg) as (_ & H0 & H1).
        unfold bind, lift. rewrite H0, H1.
        unfold Opti_variable_scalar, with_opti. now rewrite Ho.
      - unfold Opti_variable_scalar, with_opti. now rewrite Ho. }
    rewrite (bind_inr _ _ _ _ _ Hv).
    match type of Hv with _ = (?w1, _) =>
      rewrite (IH (dict_set name (Var (next_index o)) params) w1 _ eq_refl)
    end.
    unfold length. simpl. rewrite <- app_assoc. simpl.
    replace (next_index o + 1 + List.length pg)%nat
      with (next_index o + S (List.length pg))%nat by lia.
    now rewrite Nat.add_1_r.
Qed.

Lemma nth_error_parameter_decls pb pg : forall k i name g,
  nth_error pg i = Some (name, g) ->
  nth_error (parameter_decls pb k pg) i
  = Some (parameter_decl pb (k + i) name g).
Proof.
  induction pg as [|[n0 g0] pg IH]; intros k [|i] name g H; simpl in *;
    try discriminate.
  - inversion H; subst. now rewrite Nat.add_0_r.
  - rewrite (IH (S k) i name g H). f_equal. f_equal. lia.
Qed.

Lemma dict_get_symbols_from pg : forall k i name g,
  NoDup (keys pg) ->
  nth_error pg i = Some (name, g) ->
  dict_get name (symbols_from k pg) = Some (Var (k + i)).
Proof.
  induction pg as [|[n0 g0] pg IH]; intros k [|i] name g Hnd H; simpl in *;
    try discriminate.
  - inversion H; subst. now rewrite String.eqb_refl, Nat.add_0_r.
  - inversion Hnd as [|? ? Hn0 Hnd']; subst.
    destruct (String.eqb name n0) eqn:E.
    + apply String.eqb_eq in E. subst n0. exfalso. apply Hn0.
      apply nth_error_In in H. unfold keys.
      change name with (fst (name, g)). now apply in_map.
    + rewrite (IH (S k) i name g Hnd' H). f_equal. f_equal. lia.
Qed.

(** X8.  With validated bounds and distinct parameter names, the loop that
    declares the parameters never raises and adds neither constraint nor
    objective; the i-th parameter becomes the scalar variable number i,
    initialized at its guess, bounded by its pair of [parameter_bounds] if it
    has one and unbounded otherwise, and the model receives that variable
    under the parameter's name. *)
Theorem parameters_become_variables_in_order pb pg :
  check_parameter_bounds pb pg = ok ->
  NoDup (keys pg) ->
  exists o,
    declare_parameters pg pb [] (mk_world (Some Opti_new) 0 0)
    = (mk_world (Some o) 0 0, inr (symbols_from 0 pg))
    /\ length (variables o) = length pg
    /\ constraints o = [] /\ objective o = None
    /\ forall i name g,
         nth_error pg i = Some (name, g) ->
         dict_get name (symbols_from 0 pg) = Some (Var i)
         /\ exists d,
              nth_error (variables o) i = Some d
              /\ init_guess d = g /\ n_vars d = 1%nat /\ first_index d = i
              /\ match dict_get name pb with
                 | Some v =>
                     exists lb ub,
                       v = [lb; ub]
                       /\ lower_bound d = lb /\ upper_bound d = ub
                 | None => lower_bound d = None /\ upper_bound d = None
                 end.
Proof.
  intros Hpb Hnd.
  eexists. split.
  { rewrite (declare_parameters_decls pb pg Hpb pg []
               (mk_world (Some Opti_new) 0 0) Opti_new eq_refl).
    simpl. rewrite param_symbols_fresh by exact Hnd. reflexivity. }
  simpl. split.
  { clear. generalize 0%nat. unfold length.
    induction pg as [|[n g] pg IH]; intros k; simpl; [reflexivity|].
    now rewrite IH. }
  split; [reflexivity|]. split; [reflexivity|].
  intros i name g Hi. split.
  - apply (dict_get_symbols_from pg 0 i name g Hnd Hi).
  - exists (parameter_decl pb i name g). split.
    + apply (nth_error_parameter_decls pb pg 0 i name g Hi).
    + unfold parameter_decl.
      destruct (dict_get name pb) as [v|] eqn:Eg; simpl.
      * destruct (bound_item_value pb pg name v Hpb Eg)
          as ((lb & ub & ->) & _).
        repeat split. exists lb, ub. auto.
      * auto.
Qed.

(** ** What the three norms ask of the solver *)

Section NormSemantics.

Variable ln : Q -> Q.
Variable rho : nat -> Q.

Lemma epigraph_pairs (aux error : list sexpr) :
  length aux = length error ->
  (forallb (holds ln rho) (zip_with Ge aux error)
   && forallb (holds ln rho) (zip_with Ge aux (map Neg error)) = true
   <-> Forall2 (fun a e => Qabs (eval ln rho e) <= eval ln rho a) aux error).
Proof.
  unfold length. revert error.
  induction aux as [|a aux IH]; intros [|e error] Hl; simpl in *;
    try discriminate.
  - split; [constructor | reflexivity].
  - specialize (IH error ltac:(lia)).
    rewrite !andb_true_iff in *. rewrite !Qle_bool_iff. split.
    + intros [[H1 F1] [H2 F2]]. constructor; [|apply IH; auto].
      apply Qabs_Qle_condition. split; [|exact H1].
      apply Qopp_le_compat in H2. now rewrite Qopp_involutive in H2.
    + intros H. inversion H as [|? ? ? ? Ha Hrest]; subst.
      apply Qabs_Qle_condition in Ha. destruct Ha as [Hlo Hhi].
      apply IH in Hrest. destruct Hrest as [F1 F2].
      repeat split; auto.
      apply Qopp_le_compat in Hlo. now rewrite Qopp_involutive in Hlo.
Qed.

Lemma epigraph_sum (aux error : list sexpr) :
  Forall2 (fun a e => Qabs (eval ln rho e) <= eval ln rho a) aux error ->
  sum1 (map (fun e => Qabs (eval ln rho e)) error)
  <= eval ln rho (sum1_sym aux).
Proof.
  induction 1 as [|a e aux error Ha Hrest IH]; simpl.
  - apply Qle_refl.
  - apply Qplus_le_compat; assumption.
Qed.

Lemma scalar_epigraph (t : sexpr) (error : list sexpr) :
  forallb (holds ln rho)
    (map (fun e => Ge t e) error ++ map (fun e => Ge t (Neg e)) error) = true
  <-> Forall (fun e => Qabs (eval ln rho e) <= eval ln rho t) error.
Proof.
  rewrite forallb_app.
  induction error as [|e error IH]; simpl.
  - split; [constructor | reflexivity].
  - rewrite !andb_true_iff in *. rewrite !Qle_bool_iff. split.
    + intros [[H1 F1] [H2 F2]]. constructor; [|apply IH; auto].
      apply Qabs_Qle_condition. split; [|exact H1].
      apply Qopp_le_compat in H2. now rewrite Qopp_involutive in H2.
    + intros H. inversion H as [|? ? Ha Hrest]; subst.
      apply Qabs_Qle_condition in Ha. destruct Ha as [Hlo Hhi].
      apply IH in Hrest. destruct Hrest as [F1 F2].
      repeat split; auto.
      apply Qopp_le_compat in Hlo. now rewrite Qopp_involutive in Hlo.
Qed.

Lemma sum_of_squares (error : list sexpr) :
  0 <= eval ln rho (sum1_sym (map Pow2 error))
  /\ (eval ln rho (sum1_sym (map Pow2 error)) == 0
      <-> Forall (fun e => eval ln rho e == 0) error).
Proof.
  induction error as [|e error [IH0 IH]]; simpl.
  - split; [apply Qle_refl|]. split; [constructor | reflexivity].
  - assert (Hsq : 0 <= eval ln rho e * eval ln rho e).
    { destruct (Qlt_le_dec (eval ln rho e) 0) as [Hn|Hp].
      - setoid_replace (eval ln rho e * eval ln rho e)
          with ((- eval ln rho e) * (- eval ln rho e)) by ring.
        apply Qmult_le_0_compat; lra.
      - apply Qmult_le_0_compat; assumption. }
    split; [lra|]. split.
    + intros Hz.
      assert (Hz1 : eval ln rho e * eval ln rho e == 0) by lra.
      assert (Hz2 : eval ln rho (sum1_sym (map Pow2 error)) == 0) by lra.
      constructor; [|apply IH; exact Hz2].
      apply Qmult_integral in Hz1. tauto.
    + intros H. inversion H as [|? ? He Hrest]; subst.
      apply IH in Hrest. rewrite He, Hrest. ring.
Qed.

End NormSemantics.

(** X9.  Under any spelling of "L1", with as many residuals as data points,
    the norm step declares one vector of auxiliary variables (one per data
    point, guessed 0, unbounded), appends two constraints per data point and
    minimizes the sum of the auxiliaries.  An assignment satisfies the
    appended constraints exactly when every auxiliary is at least the
    absolute value of its residual, and then the objective is at least the
    L1 norm of the residuals. *)
Theorem L1_auxiliaries_dominate_absolute_residuals nt error y w o :
  lower nt = "l1" -> opti w = Some o -> length error = length y ->
  let abs_error := map Var (seq (next_index o) (length y)) in
  exists cs,
    minimize_norm nt error y w
    = (mk_world
         (Some (mk_Opti
                  (variables o
                   ++ [mk_var_decl 0 (length y) None None (next_index o)])
                  (next_index o + length y) (constraints o ++ cs)
                  (Some (sum1_sym abs_error))))
         (model_evals w) (solve_calls w), inr tt)
    /\ length cs = (2 * length y)%nat
    /\ forall ln rho,
         (satisfies ln rho cs = true
          <-> Forall2 (fun a e => Qabs (eval ln rho e) <= eval ln rho a)
                abs_error error)
         /\ (satisfies ln rho cs = true ->
             sum1 (map (fun e => Qabs (eval ln rho e)) error)
             <= eval ln rho (sum1_sym abs_error)).
Proof.
  intros Hnt Ho Hl abs_error.
  assert (Hla : length abs_error = length error).
  { unfold abs_error, length in *. now rewrite length_map, length_seq. }
  exists (zip_with Ge abs_error error ++ zip_with Ge abs_error (map Neg error)).
  split; [|split].
  - assert (E1 : String.eqb (lower nt) "l1" = true)
      by (rewrite Hnt; reflexivity).
    unfold minimize_norm. rewrite E1.
    unfold bind, lift, Opti_variable, Opti_subject_to, Opti_minimize,
      with_opti.
    rewrite Ho. simpl. fold abs_error.
    rewrite (broadcast_same_length Ge abs_error error Hla).
    rewrite (broadcast_same_length Ge abs_error (map Neg error))
      by (unfold length in *; now rewrite length_map).
    reflexivity.
  - unfold length in *. rewrite length_app.
    pose proof (length_zip_with Ge abs_error error Hla) as H1.
    pose proof (length_zip_with Ge abs_error (map Neg error)) as H2.
    unfold length in H1, H2. rewrite H1, H2, length_map by
      (now rewrite length_map).
    lia.
  - intros ln rho.
    assert (Hiff : satisfies ln rho
                     (zip_with Ge abs_error error
                      ++ zip_with Ge abs_error (map Neg error)) = true
                   <-> Forall2
                         (fun a e => Qabs (eval ln rho e) <= eval ln rho a)
                         abs_error error).
    { unfold satisfies. rewrite forallb_app.
      apply epigraph_pairs. exact Hla. }
    split; [exact Hiff|].
    intros H. apply epigraph_sum. apply Hiff. exact H.
Qed.

(** X10.  Under any spelling of "Linf" the norm step declares one scalar
    auxiliary variable (guessed 0, unbounded), appends two constraints per
    residual and minimizes the auxiliary.  An assignment satisfies the
    appended constraints exactly when the auxiliary is at least the absolute
    value of every residual. *)
Theorem Linf_auxiliary_dominates_every_residual nt error y w o :
  lower nt = "linf" -> opti w = Some o ->
  exists cs,
    minimize_norm nt error y w
    = (mk_world
         (Some (mk_Opti
                  (variables o ++ [mk_var_decl 0 1 None None (next_index o)])
                  (next_index o + 1) (constraints o ++ cs)
                  (Some (Var (next_index o)))))
         (model_evals w) (solve_calls w), inr tt)
    /\ length cs = (2 * length error)%nat
    /\ forall ln rho,
         satisfies ln rho cs = true
         <-> Forall (fun e => Qabs (eval ln rho e) <= rho (next_index o))
               error.
Proof.
  intros Hnt Ho.
  exists (map (fun e => Ge (Var (next_index o)) e) error
          ++ map (fun e => Ge (Var (next_index o)) (Neg e)) error).
  split; [|split].
  - assert (E1 : String.eqb (lower nt) "l1" = false)
      by (rewrite Hnt; reflexivity).
    assert (E2 : String.eqb (lower nt) "l2" = false)
      by (rewrite Hnt; reflexivity).
    assert (E3 : String.eqb (lower nt) "linf" = true)
      by (rewrite Hnt; reflexivity).
    unfold minimize_norm. rewrite E1, E2, E3.
    unfold bind, Opti_variable_scalar, Opti_subject_to, Opti_minimize,
      with_opti.
    rewrite Ho. reflexivity.
  - unfold length. rewrite length_app, !length_map. lia.
  - intros ln rho. unfold satisfies.
    apply (scalar_epigraph ln rho (Var (next_index o)) error).
Qed.

(** X11.  Under any spelling of "L2" the norm step declares no variable and
    appends no constraint; its objective is never negative, and it is zero
    exactly under the assignments that make every residual zero. *)
Theorem L2_objective_vanishes_exactly_at_exact_fit nt error y w o :
  lower nt = "l2" -> opti w = Some o ->
  exists f,
    minimize_norm nt error y w
    = (mk_world
         (Some (mk_Opti (variables o) (next_index o) (constraints o) (Some f)))
         (model_evals w) (solve_calls w), inr tt)
    /\ forall ln rho,
         0 <= eval ln rho f
         /\ (eval ln rho f == 0
             <-> Forall (fun e => eval ln rho e == 0) error).
Proof.
  intros Hnt Ho. exists (sum1_sym (map Pow2 error)). split.
  - apply minimize_norm_l2; assumption.
  - intros ln rho. apply sum_of_squares.
Qed.

(** ** The floor of logspace and the constraints of [fit_type] *)

Lemma floored_bounds_above_floor ln rho (prediction : list sexpr) (y : list Q) :
  Forall (fun v => eps < v) y ->
  forallb (holds ln rho) (zip_with Ge (floor_prediction prediction) (map Num y))
  = forallb (holds ln rho) (zip_with Ge prediction (map Num y))
  /\ forallb (holds ln rho)
       (zip_with Le (floor_prediction prediction) (map Num y))
     = forallb (holds ln rho) (zip_with Le prediction (map Num y)).
Proof.
  intros Hy. revert prediction.
  induction Hy as [|v y Hv Hy IH]; intros [|p prediction]; simpl;
    try (split; reflexivity).
  destruct (IH prediction) as [IHge IHle]. rewrite IHge, IHle.
  split; f_equal; apply eq_true_iff_eq; rewrite !Qle_bool_iff.
  - rewrite Q.max_le_iff. split; [|auto].
    intros [H|H]; [exact H|]. exfalso. apply (Qlt_not_le _ _ Hv H).
  - rewrite Q.max_lub_iff. split; [tauto|].
    intros H. split; [exact H|]. apply Qlt_le_weak. exact Hv.
Qed.

(** X12.  In logspace the constraints of "upper bound" and "lower bound" are
    written on the floored prediction; when every entry of [y_data] lies
    above the floor [1e-300], they are satisfied by exactly the assignments
    that satisfy the same constraints on the prediction itself. *)
Theorem floor_is_invisible_above_it ft prediction y w o :
  ft = "upper bound" \/ ft = "lower bound" ->
  opti w = Some o ->
  length prediction = length y ->
  Forall (fun v => eps < v) y ->
  exists error cs cs',
    compute_error true (RArray prediction) y
    = inr (floor_prediction prediction, error)
    /\ apply_fit_type ft (floor_prediction prediction) y w
       = (mk_world
            (Some (mk_Opti (variables o) (next_index o) (constraints o ++ cs)
                     (objective o)))
            (model_evals w) (solve_calls w), inr tt)
    /\ apply_fit_type ft prediction y w
       = (mk_world
            (Some (mk_Opti (variables o) (next_index o) (constraints o ++ cs')
                     (objective o)))
            (model_evals w) (solve_calls w), inr tt)
    /\ forall ln rho, satisfies ln rho cs = satisfies ln rho cs'.
Proof.
  intros Hft Ho Hl Hy.
  destruct (compute_error_same_length true prediction y Hl) as [error He].
  assert (Hlp : length prediction = length (map Num y))
    by (unfold length in *; now rewrite length_map).
  assert (Hlf : length (floor_prediction prediction) = length (map Num y))
    by (unfold length, floor_prediction in *; now rewrite !length_map).
  exists error.
  destruct Hft as [-> | ->].
  - exists (zip_with Ge (floor_prediction prediction) (map Num y)),
           (zip_with Ge prediction (map Num y)).
    split; [exact He|].
    rewrite !(apply_fit_type_cases _ _ y w o Ho). simpl.
    rewrite (broadcast_same_length Ge _ _ Hlf).
    rewrite (broadcast_same_length Ge _ _ Hlp).
    split; [reflexivity|]. split; [reflexivity|].
    intros ln rho. apply (floored_bounds_above_floor ln rho prediction y Hy).
  - exists (zip_with Le (floor_prediction prediction) (map Num y)),
           (zip_with Le prediction (map Num y)).
    split; [exact He|].
    rewrite !(apply_fit_type_cases _ _ y w o Ho). simpl.
    rewrite (broadcast_same_length Le _ _ Hlf).
    rewrite (broadcast_same_length Le _ _ Hlp).
    split; [reflexivity|]. split; [reflexivity|].
    intros ln rho. apply (floored_bounds_above_floor ln rho prediction y Hy).
Qed.

(** ** Which names are accepted *)

Lemma formulate_valid_decls mdl x y pg pb nt wts b :
  validate x y pg pb wts b = inr tt ->
  formulate mdl x y pg pb nt wts b world0
  = let params := param_symbols pg 0 [] in
    let w1 :=
      mk_world
        (Some (mk_Opti (parameter_decls (bounds_or_empty pb) 0 pg)
                 (length pg) [] None)) 1 0 in
    match mdl x params with
    | RNone => (w1, inl TypeError_model_None)
    | y_model =>
        match compute_error b y_model y with
        | inl e => (w1, inl e)
        | inr ye => (minimize_norm nt (snd ye) y ;;; ret (params, fst ye)) w1
        end
    end.
Proof.
  unfold validate, formulate, and_then. intros H.
  destruct (check_parameter_bounds _ pg) eqn:E1; [discriminate|].
  destruct (check_logspace b y) eqn:E2; [discriminate|].
  destruct u, u0.
  pose proof (declare_parameters_decls _ _ E1 pg []
                (mk_world (Some Opti_new) 0 0) Opti_new eq_refl) as Hr.
  simpl in Hr.
  unfold bind at 1. unfold lift at 1.
  unfold bind at 1. unfold lift at 1.
  unfold bind at 1. unfold lift at 1. rewrite H.
  unfold bind at 1. unfold Opti_create at 1. simpl.
  unfold bind at 1. rewrite Hr.
  unfold bind at 1. unfold evaluate_model. simpl.
  destruct (mdl x (param_symbols pg 0 [])); reflexivity.
Qed.

Section Names.

Variable solution : Type.
Variable solve : Opti -> option solution.
Variable sol_value : solution -> sexpr -> option Q.

Local Notation "'fit'" := (fit_model solution solve sol_value).

(** X13.  On inputs that pass the checks, with a model that returns one
    prediction per data point, [fit_model] raises the unknown-norm error
    exactly when the lowercased [residual_norm_type] is none of "l1", "l2",
    "linf"; the fit type plays no part in it. *)
Theorem unknown_norm_error_iff_not_a_norm_name
  mdl x y pg pb nt ft wts b prediction :
  validate x y pg pb wts b = inr tt ->
  mdl x (param_symbols pg 0 []) = RArray prediction ->
  length prediction = length y ->
  ((exists w,
      fit mdl x y pg pb nt ft wts b world0 = (w, inl ValueError_residual_type))
   <-> ~ In (lower nt) norm_names).
Proof.
  intros Hv Hm Hl. split.
  - intros [w Hrun].
    pose proof (fit_model_valid_outcomes _ _ _ _ _ _ _ _ _ _ _ _ _ _
                  Hv Hrun) as (_ & N1 & N2 & N3).
    unfold norm_names. simpl. intuition congruence.
  - intros Hn.
    assert (E1 : String.eqb (lower nt) "l1" = false).
    { apply String.eqb_neq. intros H. apply Hn. rewrite H. simpl. auto. }
    assert (E2 : String.eqb (lower nt) "l2" = false).
    { apply String.eqb_neq. intros H. apply Hn. rewrite H. simpl. auto. }
    assert (E3 : String.eqb (lower nt) "linf" = false).
    { apply String.eqb_neq. intros H. apply Hn. rewrite H. simpl. auto. }
    destruct (compute_error_same_length b prediction y Hl) as [error He].
    eexists. rewrite fit_model_unfold.
    rewrite (formulate_valid_decls mdl x y pg pb nt wts b Hv). cbv zeta.
    rewrite Hm, He. unfold minimize_norm. rewrite E1, E2, E3.
    unfold bind, raise. reflexivity.
Qed.

(** X14.  Once the formulation has gone through, [fit_model] raises the
    unknown-fit_type error exactly when [fit_type] is none of "best",
    "upper bound", "lower bound", compared as written. *)
Theorem unknown_fit_type_error_iff_not_a_fit_type_name
  mdl x y pg pb nt ft wts b w py :
  formulate mdl x y pg pb nt wts b world0 = (w, inr py) ->
  ((exists w',
      fit mdl x y pg pb nt ft wts b world0 = (w', inl ValueError_fit_type))
   <-> ~ In ft fit_type_names).
Proof.
  intros Hf.
  pose proof (formulate_inr_valid _ _ _ _ _ _ _ _ _ _ Hf) as Hv.
  pose proof (formulate_valid_outcomes _ _ _ _ _ _ _ _ _ _ Hv Hf) as Hout.
  simpl in Hout. destruct Hout as ((_ & _ & o & Ho & _) & _).
  rewrite fit_model_unfold, Hf.
  rewrite (apply_fit_type_cases ft _ y w o Ho).
  unfold fit_type_names. simpl.
  destruct (String.eqb ft "best") eqn:E1.
  { apply String.eqb_eq in E1. split; [|intuition congruence].
    intros [w' H]. exfalso. unfold Opti_solve in H.
    destruct (solve _); discriminate. }
  destruct (String.eqb ft "upper bound") eqn:E2.
  { apply String.eqb_eq in E2. split; [|intuition congruence].
    intros [w' H]. exfalso.
    destruct (broadcast Ge _ _) eqn:B.
    - apply broadcast_error in B. subst. discriminate.
    - unfold Opti_solve in H. simpl in H. destruct (solve _); discriminate. }
  destruct (String.eqb ft "lower bound") eqn:E3.
  { apply String.eqb_eq in E3. split; [|intuition congruence].
    intros [w' H]. exfalso.
    destruct (broadcast Le _ _) eqn:B.
    - apply broadcast_error in B. subst. discriminate.
    - unfold Opti_solve in H. simpl in H. destruct (solve _); discriminate. }
  apply String.eqb_neq in E1, E2, E3.
  split; [intuition congruence | eauto].
Qed.

End Names.

(** ** The default call *)

(** X15.  A call with the default norm and fit type, outside logspace, on
    inputs that pass the checks and with a model that returns one prediction
    per data point, hands the solver an unconstrained least-squares problem:
    one variable per parameter and no other, no constraint, and the sum of
    the squared differences between prediction and data as objective. *)
Theorem default_call_builds_unconstrained_least_squares
  mdl x y pg pb wts prediction :
  validate x y pg pb wts false = inr tt ->
  mdl x (param_symbols pg 0 []) = RArray prediction ->
  length prediction = length y ->
  build_problem mdl x y pg pb "L2" "best" wts false world0
  = (mk_world
       (Some (mk_Opti (parameter_decls (bounds_or_empty pb) 0 pg) (length pg)
                []
                (Some (sum1_sym
                         (map Pow2 (zip_with Sub prediction (map Num y)))))))
       1 0, inr (param_symbols pg 0 [])).
Proof.
  intros Hv Hm Hl.
  rewrite build_problem_unfold.
  rewrite (formulate_valid_decls mdl x y pg pb "L2" wts false Hv). cbv zeta.
  rewrite Hm. unfold compute_error. simpl as_array. cbv iota. simpl negb.
  cbv iota.
  rewrite broadcast_same_length
    by (unfold length in *; now rewrite length_map).
  reflexivity.
Qed.

(** ** Concrete instances of the properties above *)

Lemma guesses_mb_distinct : NoDup (keys guesses_mb).
Proof.
  repeat constructor; simpl; intuition discriminate.
Qed.

Lemma returned_model_witness :
  NoDup (keys guesses_mb)
  /\ exists w fm,
       fit_model Opti mock_solve (mock_value []) named_linear_model
         (XNamed [("t", [0; 1; 2])]) [1; 3; 5] guesses_mb None "L2" "best"
         None false world0 = (w, inr fm)
       /\ keys (parameters fm) = keys guesses_mb
       /\ input_names fm = Some ["t"]
       /\ input_dimensionality fm = 1%nat.
Proof.
  split; [exact guesses_mb_distinct|].
  destruct (fit_model Opti mock_solve (mock_value []) named_linear_model
              (XNamed [("t", [0; 1; 2])]) [1; 3; 5] guesses_mb None "L2"
              "best" None false world0) as [w [e|fm]] eqn:Hrun.
  - exfalso. vm_compute in Hrun. discriminate.
  - exists w, fm. split; [reflexivity|].
    destruct (returned_model_holds_the_inputs Opti mock_solve (mock_value [])
                named_linear_model (XNamed [("t", [0; 1; 2])]) [1; 3; 5]
                guesses_mb None "L2" "best" None false w fm Hrun
                guesses_mb_distinct)
      as (_ & _ & _ & Hk & Hn & Hd).
    split; [exact Hk|]. split; [exact Hn | exact Hd].
Defined.

Lemma returned_series_witness :
  distinct_names (XNamed [("t", [0; 1; 2])])
  /\ exists w fm,
       fit_model Opti mock_solve (mock_value []) named_linear_model
         (XNamed [("t", [0; 1; 2])]) [1; 3; 5] guesses_mb None "L2" "best"
         None false world0 = (w, inr fm)
       /\ match x_data fm with
          | XSeq v => v = [] \/ length v = length (y_data fm)
          | XNamed d =>
              forall k v, In (k, v) d -> length v = length (y_data fm)
          end.
Proof.
  assert (Hd : distinct_names (XNamed [("t", [0; 1; 2])])).
  { simpl. repeat constructor. simpl. tauto. }
  split; [exact Hd|].
  destruct (fit_model Opti mock_solve (mock_value []) named_linear_model
              (XNamed [("t", [0; 1; 2])]) [1; 3; 5] guesses_mb None "L2"
              "best" None false world0) as [w [e|fm]] eqn:Hrun.
  - exfalso. vm_compute in Hrun. discriminate.
  - exists w, fm. split; [reflexivity|].
    exact (returned_series_have_data_length Opti mock_solve (mock_value [])
             named_linear_model (XNamed [("t", [0; 1; 2])]) [1; 3; 5]
             guesses_mb None "L2" "best" None false w fm Hrun Hd).
Defined.

Lemma weights_by_number_witness :
  weights_length (length [1; 3; 5]) None
  = weights_length (length [1; 3; 5]) (Some [2; 7; 1])
  /\ fit_model Opti mock_solve (mock_value []) linear_model (XSeq [0; 1; 2])
       [1; 3; 5] guesses_mb None "L1" "upper bound" None false world0
     = fit_model Opti mock_solve (mock_value []) linear_model (XSeq [0; 1; 2])
         [1; 3; 5] guesses_mb None "L1" "upper bound" (Some [2; 7; 1]) false
         world0.
Proof.
  split; [reflexivity|].
  apply weights_matter_only_by_their_number. reflexivity.
Defined.

Lemma wrong_number_of_weights_witness :
  check_parameter_bounds (bounds_or_empty None) guesses_mb = ok
  /\ check_logspace false [1; 3; 5] = ok
  /\ length [1; 1] <> length [1; 3; 5]
  /\ fit_model Opti mock_solve (mock_value []) linear_model (XSeq [0; 1])
       [1; 3; 5] guesses_mb None "L2" "best" (Some [1; 1]) false world0
     = (world0,
        inl (ValueError_series "weights" (length [1; 1]) (length [1; 3; 5]))).
Proof.
  split; [reflexivity|]. split; [reflexivity|].
  split; [discriminate|].
  apply wrong_number_of_weights_is_reported_first;
    [reflexivity | reflexivity | exact I | discriminate].
Defined.

Lemma parameters_become_variables_witness :
  check_parameter_bounds [("m", [Some 0; None])] guesses_mb = ok
  /\ NoDup (keys guesses_mb)
  /\ exists o,
       declare_parameters guesses_mb [("m", [Some 0; None])] []
         (mk_world (Some Opti_new) 0 0)
       = (mk_world (Some o) 0 0, inr (symbols_from 0 guesses_mb))
       /\ length (variables o) = length guesses_mb.
Proof.
  split; [reflexivity|]. split; [exact guesses_mb_distinct|].
  destruct (parameters_become_variables_in_order [("m", [Some 0; None])]
              guesses_mb eq_refl guesses_mb_distinct)
    as (o & Hrun & Hlen & _).
  exists o. split; [exact Hrun | exact Hlen].
Defined.

Lemma L1_auxiliaries_witness :
  lower "L1" = "l1"
  /\ length [Sub (Var 0) (Num 1); Sub (Var 0) (Num 3)] = length [1; 3]
  /\ exists cs,
       minimize_norm "L1" [Sub (Var 0) (Num 1); Sub (Var 0) (Num 3)] [1; 3]
         (mk_world (Some (mk_Opti [mk_var_decl 0 1 None None 0] 1 [] None))
            1 0)
       = (mk_world
            (Some (mk_Opti
                     [mk_var_decl 0 1 None None 0; mk_var_decl 0 2 None None 1]
                     3 cs (Some (sum1_sym [Var 1; Var 2]))))
            1 0, inr tt)
       /\ length cs = 4%nat.
Proof.
  split; [reflexivity|]. split; [reflexivity|].
  destruct (L1_auxiliaries_dominate_absolute_residuals "L1"
              [Sub (Var 0) (Num 1); Sub (Var 0) (Num 3)] [1; 3]
              (mk_world
                 (Some (mk_Opti [mk_var_decl 0 1 None None 0] 1 [] None)) 1 0)
              (mk_Opti [mk_var_decl 0 1 None None 0] 1 [] None)
              eq_refl eq_refl eq_refl)
    as (cs & Hrun & Hlen & _).
  exists cs. split; [exact Hrun | exact Hlen].
Defined.

Lemma Linf_auxiliary_witness :
  lower "LInf" = "linf"
  /\ exists cs,
       minimize_norm "LInf" [Sub (Var 0) (Num 1); Sub (Var 0) (Num 3)] [1; 3]
         (mk_world (Some (mk_Opti [mk_var_decl 0 1 None None 0] 1 [] None))
            1 0)
       = (mk_world
            (Some (mk_Opti
                     [mk_var_decl 0 1 None None 0; mk_var_decl 0 1 None None 1]
                     2 cs (Some (Var 1))))
            1 0, inr tt)
       /\ length cs = 4%nat.
Proof.
  split; [reflexivity|].
  destruct (Linf_auxiliary_dominates_every_residual "LInf"
              [Sub (Var 0) (Num 1); Sub (Var 0) (Num 3)] [1; 3]
              (mk_world
                 (Some (mk_Opti [mk_var_decl 0 1 None None 0] 1 [] None)) 1 0)
              (mk_Opti [mk_var_decl 0 1 None None 0] 1 [] None)
              eq_refl eq_refl)
    as (cs & Hrun & Hlen & _).
  exists cs. split; [exact Hrun | exact Hlen].
Defined.

Lemma L2_objective_witness :
  lower "L2" = "l2"
  /\ exists f,
       minimize_norm "L2" [Sub (Var 0) (Num 1); Sub (Var 0) (Num 3)] [1; 3]
         (mk_world (Some (mk_Opti [mk_var_decl 0 1 None None 0] 1 [] None))
            1 0)
       = (mk_world
            (Some (mk_Opti [mk_var_decl 0 1 None None 0] 1 [] (Some f))) 1 0,
          inr tt)
       /\ 0 <= eval (fun q => q) (fun _ => 2) f.
Proof.
  split; [reflexivity|].
  destruct (L2_objective_vanishes_exactly_at_exact_fit "L2"
              [Sub (Var 0) (Num 1); Sub (Var 0) (Num 3)] [1; 3]
              (mk_world
                 (Some (mk_Opti [mk_var_decl 0 1 None None 0] 1 [] None)) 1 0)
              (mk_Opti [mk_var_decl 0 1 None None 0] 1 [] None)
              eq_refl eq_refl)
    as (f & Hrun & Hsem).
  exists f. split; [exact Hrun|].
  exact (proj1 (Hsem (fun q => q) (fun _ => 2))).
Defined.

Lemma floor_is_invisible_witness :
  length [Var 0; Var 1] = length [1; 3]
  /\ Forall (fun v => eps < v) [1; 3]
  /\ exists error cs cs',
       compute_error true (RArray [Var 0; Var 1]) [1; 3]
       = inr (floor_prediction [Var 0; Var 1], error)
       /\ apply_fit_type "upper bound" (floor_prediction [Var 0; Var 1])
            [1; 3] (mk_world (Some Opti_new) 1 0)
          = (mk_world (Some (mk_Opti [] 0 cs None)) 1 0, inr tt)
       /\ apply_fit_type "upper bound" [Var 0; Var 1] [1; 3]
            (mk_world (Some Opti_new) 1 0)
          = (mk_world (Some (mk_Opti [] 0 cs' None)) 1 0, inr tt)
       /\ forall ln rho, satisfies ln rho cs = satisfies ln rho cs'.
Proof.
  assert (Hy : Forall (fun v => eps < v) [1; 3])
    by (repeat constructor).
  split; [reflexivity|]. split; [exact Hy|].
  exact (floor_is_invisible_above_it "upper bound" [Var 0; Var 1] [1; 3]
           (mk_world (Some Opti_new) 1 0) Opti_new
           (or_introl eq_refl) eq_refl eq_refl Hy).
Defined.

Lemma unknown_norm_witness :
  validate (XSeq [0; 1; 2]) [1; 3; 5] guesses_mb None None false = inr tt
  /\ length [Add (Mul (Var 0) (Num 0)) (Var 1);
             Add (Mul (Var 0) (Num 1)) (Var 1);
             Add (Mul (Var 0) (Num 2)) (Var 1)] = length [1; 3; 5]
  /\ ((exists w,
         fit_model Opti mock_solve (mock_value []) linear_model
           (XSeq [0; 1; 2]) [1; 3; 5] guesses_mb None "huber" "best" None
           false world0 = (w, inl ValueError_residual_type))
      <-> ~ In (lower "huber") norm_names).
Proof.
  split; [reflexivity|]. split; [reflexivity|].
  apply (unknown_norm_error_iff_not_a_norm_name Opti mock_solve
           (mock_value []) linear_model (XSeq [0; 1; 2]) [1; 3; 5] guesses_mb
           None "huber" "best" None false
           [Add (Mul (Var 0) (Num 0)) (Var 1);
            Add (Mul (Var 0) (Num 1)) (Var 1);
            Add (Mul (Var 0) (Num 2)) (Var 1)]);
    reflexivity.
Defined.

Lemma unknown_fit_type_witness :
  exists w py,
    formulate linear_model (XSeq [0; 1; 2]) [1; 3; 5] guesses_mb None "L2"
      None false world0 = (w, inr py)
    /\ ((exists w',
           fit_model Opti mock_solve (mock_value []) linear_model
             (XSeq [0; 1; 2]) [1; 3; 5] guesses_mb None "L2" "tightest" None
             false world0 = (w', inl ValueError_fit_type))
        <-> ~ In "tightest" fit_type_names).
Proof.
  destruct (formulate linear_model (XSeq [0; 1; 2]) [1; 3; 5] guesses_mb None
              "L2" None false world0) as [w [e|py]] eqn:Hf.
  - exfalso. vm_compute in Hf. discriminate.
  - exists w, py. split; [reflexivity|].
    exact (unknown_fit_type_error_iff_not_a_fit_type_name Opti mock_solve
             (mock_value []) linear_model (XSeq [0; 1; 2]) [1; 3; 5]
             guesses_mb None "L2" "tightest" None false w py Hf).
Defined.

Lemma default_call_witness :
  validate (XSeq [0; 1]) [1; 3] guesses_mb None None false = inr tt
  /\ build_problem linear_model (XSeq [0; 1]) [1; 3] guesses_mb None "L2"
       "best" None false world0
     = (mk_world
          (Some (mk_Opti (parameter_decls (bounds_or_empty None) 0 guesses_mb)
                   (length guesses_mb) []
                   (Some (sum1_sym
                            (map Pow2
                               (zip_with Sub
                                  [Add (Mul (Var 0) (Num 0)) (Var 1);
                                   Add (Mul (Var 0) (Num 1)) (Var 1)]
                                  (map Num [1; 3])))))))
          1 0, inr (param_symbols guesses_mb 0 [])).
Proof.
  split; [reflexivity|].
  apply default_call_builds_unconstrained_least_squares; reflexivity.
Defined.

(** ** Residual signs under the bound fits *)

Lemma bound_constraints_sign ln rho (prediction : list sexpr) (y : list Q) :
  length prediction = length y ->
  (forallb (holds ln rho) (zip_with Ge prediction (map Num y)) = true
   <-> Forall (fun e => 0 <= eval ln rho e)
         (zip_with Sub prediction (map Num y)))
  /\ (forallb (holds ln rho) (zip_with Le prediction (map Num y)) = true
      <-> Forall (fun e => eval ln rho e <= 0)
            (zip_with Sub prediction (map Num y))).
Proof.
  unfold length. revert y.
  induction prediction as [|p prediction IH]; intros [|v y] Hl; simpl in *;
    try discriminate.
  - split; (split; [constructor | reflexivity]).
  - destruct (IH y ltac:(lia)) as [IHge IHle].
    rewrite !andb_true_iff, !Qle_bool_iff. split; split.
    + intros [H F]. constructor; [simpl; lra | apply IHge; exact F].
    + intros H. inversion H as [|? ? H0 Hrest]; subst. simpl in H0.
      split; [lra | apply IHge; exact Hrest].
    + intros [H F]. constructor; [simpl; lra | apply IHle; exact F].
    + intros H. inversion H as [|? ? H0 Hrest]; subst. simpl in H0.
      split; [lra | apply IHle; exact Hrest].
Qed.

(** X16.  Outside logspace, with one prediction per data point, the
    constraints that "upper bound" appends are satisfied by exactly the
    assignments under which no residual is negative, and those of
    "lower bound" by exactly the assignments under which no residual is
    positive. *)
Theorem bound_fits_fix_the_sign_of_the_residuals prediction y w o :
  opti w = Some o ->
  length prediction = length y ->
  exists error upper lower,
    compute_error false (RArray prediction) y = inr (prediction, error)
    /\ apply_fit_type "upper bound" prediction y w
       = (mk_world
            (Some (mk_Opti (variables o) (next_index o)
                     (constraints o ++ upper) (objective o)))
            (model_evals w) (solve_calls w), inr tt)
    /\ apply_fit_type "lower bound" prediction y w
       = (mk_world
            (Some (mk_Opti (variables o) (next_index o)
                     (constraints o ++ lower) (objective o)))
            (model_evals w) (solve_calls w), inr tt)
    /\ forall ln rho,
         (satisfies ln rho upper = true
          <-> Forall (fun e => 0 <= eval ln rho e) error)
         /\ (satisfies ln rho lower = true
             <-> Forall (fun e => eval ln rho e <= 0) error).
Proof.
  intros Ho Hl.
  assert (Hlp : length prediction = length (map Num y))
    by (unfold length in *; now rewrite length_map).
  exists (zip_with Sub prediction (map Num y)),
         (zip_with Ge prediction (map Num y)),
         (zip_with Le prediction (map Num y)).
  split; [|split; [|split]].
  - unfold compute_error. simpl.
    now rewrite (broadcast_same_length Sub _ _ Hlp).
  - rewrite (apply_fit_type_cases _ _ y w o Ho). simpl.
    now rewrite (broadcast_same_length Ge _ _ Hlp).
  - rewrite (apply_fit_type_cases _ _ y w o Ho). simpl.
    now rewrite (broadcast_same_length Le _ _ Hlp).
  - intros ln rho. unfold satisfies.
    apply (bound_constraints_sign ln rho prediction y Hl).
Qed.

Lemma bound_fits_witness :
  length [Var 0; Var 1] = length [1; 3]
  /\ exists error upper lower,
       compute_error false (RArray [Var 0; Var 1]) [1; 3]
       = inr ([Var 0; Var 1], error)
       /\ apply_fit_type "upper bound" [Var 0; Var 1] [1; 3]
            (mk_world (Some Opti_new) 1 0)
          = (mk_world (Some (mk_Opti [] 0 upper None)) 1 0, inr tt)
       /\ apply_fit_type "lower bound" [Var 0; Var 1] [1; 3]
            (mk_world (Some Opti_new) 1 0)
          = (mk_world (Some (mk_Opti [] 0 lower None)) 1 0, inr tt)
       /\ forall ln rho,
            (satisfies ln rho upper = true
             <-> Forall (fun e => 0 <= eval ln rho e) error)
            /\ (satisfies ln rho lower = true
                <-> Forall (fun e => eval ln rho e <= 0) error).
Proof.
  split; [reflexivity|].
  exact (bound_fits_fix_the_sign_of_the_residuals [Var 0; Var 1] [1; 3]
           (mk_world (Some Opti_new) 1 0) Opti_new eq_refl eq_refl).
Defined.

(** ** Auxiliary variables are new variables *)

Lemma dict_set_in {V} (k k' : string) (v v' : V) (d : dict V) :
  In (k, v) (dict_set k' v' d) -> (k, v) = (k', v') \/ In (k, v) d.
Proof.
  induction d as [|[k0 v0] d IH]; simpl.
  - intros [H|[]]. left. now symmetry.
  - destruct (String.eqb k' k0) eqn:E.
    + apply String.eqb_eq in E. subst k0.
      intros [H|H]; [left; now symmetry | right; right; exact H].
    + intros [H|H]; [right; left; exact H|].
      destruct (IH H); [left | right; right]; assumption.
Qed.

Lemma param_symbols_range pg : forall i acc,
  (forall k v, In (k, v) acc -> exists j, v = Var j /\ (j < i)%nat) ->
  forall k v, In (k, v) (param_symbols pg i acc) ->
  exists j, v = Var j /\ (j < i + length pg)%nat.
Proof.
  unfold length.
  induction pg as [|[name g] pg IH]; intros i acc Hacc k v Hin; simpl in *.
  - destruct (Hacc k v Hin) as [j [-> Hj]]. exists j. split; [reflexivity|lia].
  - destruct (IH (S i) (dict_set name (Var i) acc)) with (k := k) (v := v)
      as [j [-> Hj]]; [|exact Hin|exists j; split; [reflexivity|lia]].
    intros k' v' Hin'. destruct (dict_set_in _ _ _ _ _ Hin') as [Heq|Hold].
    + inversion Heq; subst. exists i. split; [reflexivity|lia].
    + destruct (Hacc k' v' Hold) as [j [-> Hj]].
      exists j. split; [reflexivity|lia].
Qed.

Lemma minimize_norm_new_variables nt error y w o w' :
  opti w = Some o ->
  minimize_norm nt error y w = (w', inr tt) ->
  exists o' extra,
    opti w' = Some o'
    /\ variables o' = variables o ++ extra
    /\ Forall (fun d => first_index d = next_index o) extra
    /\ (length extra <= 1)%nat.
Proof.
  intros Ho. unfold minimize_norm.
  destruct (String.eqb (lower nt) "l1").
  { unfold bind, lift, Opti_variable, Opti_subject_to, Opti_minimize,
      with_opti.
    rewrite Ho. simpl.
    destruct (broadcast Ge _ error); [discriminate|].
    destruct (broadcast Ge _ (map Neg error)); [discriminate|].
    intros H. inversion H; subst. simpl.
    do 2 eexists. split; [reflexivity|]. split; [reflexivity|].
    split; [repeat constructor | unfold length; simpl; lia]. }
  destruct (String.eqb (lower nt) "l2").
  { unfold Opti_minimize, with_opti. rewrite Ho.
    intros H. inversion H; subst. simpl.
    exists (mk_Opti (variables o) (next_index o) (constraints o)
              (Some (sum1_sym (map Pow2 error)))), [].
    split; [reflexivity|]. simpl. rewrite app_nil_r.
    split; [reflexivity|]. split; [constructor | unfold length; simpl; lia]. }
  destruct (String.eqb (lower nt) "linf").
  { unfold bind, Opti_variable_scalar, Opti_subject_to, Opti_minimize,
      with_opti.
    rewrite Ho. simpl.
    intros H. inversion H; subst. simpl.
    do 2 eexists. split; [reflexivity|]. split; [reflexivity|].
    split; [repeat constructor | unfold length; simpl; lia]. }
  discriminate.
Qed.

(** X17.  When the formulation goes through, the environment holds the
    parameter variables first, as declared, then at most one auxiliary
    declaration of the norm; the auxiliary starts past the parameter
    variables, and every symbol that the model received is a parameter
    variable: no auxiliary variable can be taken for a parameter. *)
Theorem auxiliary_variables_are_new mdl x y pg pb nt wts b w params y_model :
  formulate mdl x y pg pb nt wts b world0 = (w, inr (params, y_model)) ->
  exists o extra,
    opti w = Some o
    /\ variables o = parameter_decls (bounds_or_empty pb) 0 pg ++ extra
    /\ (length extra <= 1)%nat
    /\ Forall (fun d => first_index d = length pg) extra
    /\ forall name v,
         In (name, v) params -> exists j, v = Var j /\ (j < length pg)%nat.
Proof.
  intros Hf.
  pose proof (formulate_inr_valid _ _ _ _ _ _ _ _ _ _ Hf) as Hv.
  rewrite (formulate_valid_decls mdl x y pg pb nt wts b Hv) in Hf.
  cbv zeta in Hf.
  assert (Hrest : forall ym,
    match compute_error b ym y with
    | inl e =>
        (mk_world
           (Some (mk_Opti (parameter_decls (bounds_or_empty pb) 0 pg)
                    (length pg) [] None)) 1 0, inl e)
    | inr ye =>
        (minimize_norm nt (snd ye) y ;;; ret (param_symbols pg 0 [], fst ye))
          (mk_world
             (Some (mk_Opti (parameter_decls (bounds_or_empty pb) 0 pg)
                      (length pg) [] None)) 1 0)
    end = (w, inr (params, y_model)) ->
    exists o extra,
      opti w = Some o
      /\ variables o = parameter_decls (bounds_or_empty pb) 0 pg ++ extra
      /\ (length extra <= 1)%nat
      /\ Forall (fun d => first_index d = length pg) extra
      /\ forall name v,
           In (name, v) params -> exists j, v = Var j /\ (j < length pg)%nat).
  { intros ym Hrun.
    destruct (compute_error b ym y) as [e|ye]; [discriminate|].
    unfold bind in Hrun.
    destruct (minimize_norm nt (snd ye) y _) as [w1 [e|[]]] eqn:Hm;
      [discriminate|].
    unfold ret in Hrun. inversion Hrun; subst.
    destruct (minimize_norm_new_variables nt (snd ye) y
                (mk_world
                   (Some (mk_Opti (parameter_decls (bounds_or_empty pb) 0 pg)
                            (length pg) [] None)) 1 0)
                (mk_Opti (parameter_decls (bounds_or_empty pb) 0 pg)
                   (length pg) [] None) _ eq_refl Hm)
      as (o' & extra & Ho' & Hvars & Hidx & Hlen).
    exists o', extra. simpl in Hvars, Hidx.
    split; [exact Ho'|]. split; [exact Hvars|]. split; [exact Hlen|].
    split; [exact Hidx|].
    intros name v Hin.
    apply (param_symbols_range pg 0 [] (fun _ _ H => match H with end)
             name v Hin). }
  destruct (mdl x (param_symbols pg 0 [])) eqn:Em.
  - discriminate.
  - apply (Hrest (RArray v)). exact Hf.
  - apply (Hrest RNonNumeric). exact Hf.
Qed.

Lemma auxiliary_variables_witness :
  exists w params y_model o extra,
    formulate linear_model (XSeq [0; 1; 2]) [1; 3; 5] guesses_mb None "Linf"
      None false world0 = (w, inr (params, y_model))
    /\ opti w = Some o
    /\ variables o = parameter_decls (bounds_or_empty None) 0 guesses_mb ++ extra
    /\ Forall (fun d => first_index d = length guesses_mb) extra.
Proof.
  destruct (formulate linear_model (XSeq [0; 1; 2]) [1; 3; 5] guesses_mb None
              "Linf" None false world0) as [w [e|[params y_model]]] eqn:Hf.
  - exfalso. vm_compute in Hf. discriminate.
  - destruct (auxiliary_variables_are_new linear_model (XSeq [0; 1; 2])
                [1; 3; 5] guesses_mb None "Linf" None false w params y_model
                Hf)
      as (o & extra & Ho & Hvars & _ & Hidx & _).
    exists w, params, y_model, o, extra. auto.
Defined.

(** The same reuse under "lower bound": for a data value below the floor the
    registered constraint [max(prediction, 1e-300) <= y_data] holds under no
    assignment, whatever the prediction. *)
Lemma logspace_lower_bound_unsatisfiable_below_floor ln rho (p : sexpr) :
  holds ln rho (Le (Fmax p (Num eps)) (Num (1 # 10 ^ 301))) = false.
Proof.
  simpl. apply not_true_is_false. rewrite Qle_bool_iff, Q.max_lub_iff.
  intros [_ H]. revert H. apply Qlt_not_le. reflexivity.
Qed.
